(** * ContainerBar: post-release validation script

    A shallow embedding of [scripts/validate-release.py] together with the
    properties of its checks, of its tallies and of its exit status.

    Conventions of the embedding.
    - Python [str] values are [string]s (sequences of 8-bit characters:
      the UTF-8 encoding of the text).  The whitespace recognised by
      [str.strip] and by the regex class [\s] is that of [str.isspace]:
      codes 9-13 and 28-32 and, as two and three bytes, U+0085, U+00A0,
      U+1680, U+2000 to U+200A, U+2028, U+2029, U+202F, U+205F and U+3000.
    - Standard output takes every text written to it: a [print] that
      raises (a stream that is closed or cannot encode the text) is not
      modelled.  What is stated of a run of the seven checks is
      therefore stated of the runs that end through [sys.exit], or bounds
      what a run has done so far, however it ends.
    - The two module-level counters, standard output and the list of
      interactions with the outside world are threaded through an explicit
      state; Python exceptions are the left summand of a result.
    - The outside world (files, child processes, the network) is a record
      of oracles.  Child processes are indexed by the number of
      interactions that came before, so two invocations of one command may
      answer differently. *)

From stdpp Require Import base option list strings gmap pretty.
From Stdlib Require Import Ascii ZArith Lia.

Local Open Scope string_scope.
Local Open Scope list_scope.

(** ** Text primitives *)

Module Text.

Definition code (a : ascii) : nat := nat_of_ascii a.

(** The one-byte characters of [str.isspace]: codes 9-13 and 28-32. *)
Definition is_space (a : ascii) : bool :=
  let n := code a in
  (Nat.leb 9 n && Nat.leb n 13) || (Nat.leb 28 n && Nat.leb n 32).

(** The two-byte characters of [str.isspace]: U+0085 and U+00A0. *)
Definition is_space2 (a b : ascii) : bool :=
  Nat.eqb (code a) 194 && (Nat.eqb (code b) 133 || Nat.eqb (code b) 160).

(** The three-byte characters of [str.isspace]: U+1680, U+2000 to U+200A,
    U+2028, U+2029, U+202F, U+205F and U+3000. *)
Definition is_space3 (a b c : ascii) : bool :=
  let x := code a in
  let y := code b in
  let z := code c in
  (Nat.eqb x 225 && Nat.eqb y 154 && Nat.eqb z 128)
  || (Nat.eqb x 226 && Nat.eqb y 128
      && ((Nat.leb 128 z && Nat.leb z 138)
          || Nat.eqb z 168 || Nat.eqb z 169 || Nat.eqb z 175))
  || (Nat.eqb x 226 && Nat.eqb y 129 && Nat.eqb z 159)
  || (Nat.eqb x 227 && Nat.eqb y 128 && Nat.eqb z 128).

Definition newline : ascii := "010"%char.
Definition dquote : ascii := "034"%char.

(** [s.startswith(p)] *)
Fixpoint startswith (p s : string) : bool :=
  match p, s with
  | EmptyString, _ => true
  | String a p', String b s' => if decide (a = b) then startswith p' s' else false
  | String _ _, EmptyString => false
  end.

(** [needle in hay] on [str]: substring containment. *)
Fixpoint contains (needle hay : string) : bool :=
  if startswith needle hay then true
  else match hay with
       | EmptyString => false
       | String _ hay' => contains needle hay'
       end.

(** [s.lstrip()] *)
Fixpoint lstrip (s : string) : string :=
  match s with
  | EmptyString => EmptyString
  | String a s1 =>
      if is_space a then lstrip s1
      else match s1 with
           | String b s2 =>
               if is_space2 a b then lstrip s2
               else match s2 with
                    | String c s3 => if is_space3 a b c then lstrip s3 else s
                    | EmptyString => s
                    end
           | EmptyString => s
           end
  end.

(** [s.isspace()], or [s] is empty: whitespace from end to end. *)
Fixpoint all_space (s : string) : bool :=
  match s with
  | EmptyString => true
  | String a s1 =>
      if is_space a then all_space s1
      else match s1 with
           | String b s2 =>
               if is_space2 a b then all_space s2
               else match s2 with
                    | String c s3 => is_space3 a b c && all_space s3
                    | EmptyString => false
                    end
           | EmptyString => false
           end
  end.

(** [s.rstrip()]: the text up to where only whitespace is left. *)
Fixpoint rstrip (s : string) : string :=
  match s with
  | EmptyString => EmptyString
  | String a s' => if all_space s then EmptyString else String a (rstrip s')
  end.

(** [s.strip()] *)
Definition strip (s : string) : string := rstrip (lstrip s).

(** [s.split(sep)] for a one-character separator. *)
Fixpoint split (sep : ascii) (s : string) : list string :=
  match s with
  | EmptyString => [EmptyString]
  | String a s' =>
      if decide (a = sep) then EmptyString :: split sep s'
      else match split sep s' with
           | h :: t => String a h :: t
           | [] => [String a EmptyString]
           end
  end.

(** [s.lower()] on the ASCII letters. *)
Definition lower_char (a : ascii) : ascii :=
  let n := code a in
  if Nat.leb 65 n && Nat.leb n 90 then ascii_of_nat (n + 32) else a.

Fixpoint lower (s : string) : string :=
  match s with
  | EmptyString => EmptyString
  | String a s' => String (lower_char a) (lower s')
  end.

(** [c * n] for a one-character string [c]. *)
Fixpoint repeat_char (a : ascii) (n : nat) : string :=
  match n with
  | O => EmptyString
  | S n' => String a (repeat_char a n')
  end.

(** Whether the character [c] occurs in [s]. *)
Fixpoint has_char (c : ascii) (s : string) : bool :=
  match s with
  | EmptyString => false
  | String a s' => if decide (a = c) then true else has_char c s'
  end.

(** [x in xs] on a list of [str]. *)
Definition mem (x : string) (xs : list string) : bool :=
  bool_decide (x ∈ xs).

End Text.

(** ** The [re] fragment used by the script *)

Module Re.
Import Text.

Definition backslash : ascii := "092"%char.

Definition is_alnum (a : ascii) : bool :=
  let n := code a in
  (Nat.leb 48 n && Nat.leb n 57) || (Nat.leb 65 n && Nat.leb n 90)
  || (Nat.leb 97 n && Nat.leb n 122).

(** Characters with a meaning of their own in a pattern:
    [. ^ $ * + ? { [ | ( )] and the backslash. *)
Definition is_meta (a : ascii) : bool :=
  bool_decide (code a ∈ [46; 94; 36; 42; 43; 63; 123; 91; 124; 40; 41; 92]).

(** The keys of [re._special_chars_map]:
    [( ) [ ] { } ? * + - | ^ $ \ . & ~ #], space, and [\t \n \r \v \f]. *)
Definition is_special (a : ascii) : bool :=
  bool_decide (code a ∈ [40; 41; 91; 93; 123; 125; 63; 42; 43; 45; 124; 94;
                          36; 92; 46; 38; 126; 35; 32; 9; 10; 13; 11; 12]).

(** [re.escape(s)] *)
Fixpoint escape (s : string) : string :=
  match s with
  | EmptyString => EmptyString
  | String a s' =>
      if is_special a then String backslash (String a (escape s'))
      else String a (escape s')
  end.

(** The literal fragment of the pattern syntax: an ordinary character, or a
    backslash followed by a character that is not alphanumeric, matches
    that character.  [compile] returns the text such a pattern matches, and
    [None] on anything else (an operator, a class, a back-reference, a
    trailing backslash). *)
Fixpoint compile (p : string) : option string :=
  match p with
  | EmptyString => Some EmptyString
  | String c p' =>
      if decide (c = backslash) then
        match p' with
        | EmptyString => None
        | String d p'' =>
            if is_alnum d then None else String d <$> compile p''
        end
      else if is_meta c then None
      else String c <$> compile p'
  end.

(** [bool(re.search(p, s))] for [p] in the literal fragment. *)
Definition search (p s : string) : option bool :=
  lit ← compile p; Some (contains lit s).

(** The pattern of the cask check: the word version, one or more
    whitespace characters, a double quote, a group of one or more
    characters other than the double quote, and a double quote.  It is
    matched here at the start of [s]; the answer is group 1.  Both repetitions are greedy and
    are followed by a character outside their class, so giving characters
    back never produces a match and a single left-to-right pass decides. *)
Fixpoint span (f : ascii → bool) (s : string) : string * string :=
  match s with
  | EmptyString => (EmptyString, EmptyString)
  | String a s' =>
      if f a then let '(h, t) := span f s' in (String a h, t)
      else (EmptyString, s)
  end.

(** The longest run of whitespace characters at the start of [s], and
    what follows it: the class [\s], repeated greedily. *)
Fixpoint span_space (s : string) : string * string :=
  match s with
  | EmptyString => (EmptyString, EmptyString)
  | String a s1 =>
      if is_space a then let '(h, t) := span_space s1 in (String a h, t)
      else match s1 with
           | String b s2 =>
               if is_space2 a b
               then let '(h, t) := span_space s2 in (String a (String b h), t)
               else match s2 with
                    | String c s3 =>
                        if is_space3 a b c
                        then let '(h, t) := span_space s3 in
                             (String a (String b (String c h)), t)
                        else (EmptyString, s)
                    | EmptyString => (EmptyString, s)
                    end
           | EmptyString => (EmptyString, s)
           end
  end.

Fixpoint drop_prefix (p s : string) : option string :=
  match p, s with
  | EmptyString, _ => Some s
  | String a p', String b s' => if decide (a = b) then drop_prefix p' s' else None
  | String _ _, EmptyString => None
  end.

Definition match_cask_here (s : string) : option string :=
  rest ← drop_prefix "version" s;
  let '(ws, rest1) := span_space rest in
  match ws, rest1 with
  | String _ _, String q rest2 =>
      if decide (q = dquote) then
        let '(g, rest3) := span (λ a, negb (bool_decide (a = dquote))) rest2 in
        match g, rest3 with
        | String _ _, String _ _ => Some g
        | _, _ => None
        end
      else None
  | _, _ => None
  end.

(** [re.search] with that pattern: leftmost match, group 1. *)
Fixpoint search_cask (s : string) : option string :=
  match match_cask_here s with
  | Some g => Some g
  | None => match s with
            | EmptyString => None
            | String _ s' => search_cask s'
            end
  end.

End Re.

(** ** Values, exceptions, state and the outside world *)

(** The exception classes the script tells apart.  Every class here is a
    subclass of [Exception]; [OtherException] stands for any other one
    ([OSError], [UnicodeDecodeError], [URLError], ...). *)
Inductive exn_class :=
  | FileNotFoundError
  | TypeError
  | ReError
  | OtherException.

Record exn := Exn { exn_cls : exn_class; exn_msg : string }.

(** [str(e)] *)
Definition str_exn (e : exn) : string := exn_msg e.

(** What a property-list field can hold, as far as the script looks at it:
    text, an integer, a boolean, or an object of another type (real, date,
    data, array, dictionary) of which only the type name and the truth
    value matter. *)
Inductive pyval :=
  | PStr (s : string)
  | PInt (z : Z)
  | PBool (b : bool)
  | POther (tyname : string) (truth : bool).

Definition type_name (v : pyval) : string :=
  match v with
  | PStr _ => "str"
  | PInt _ => "int"
  | PBool _ => "bool"
  | POther n _ => n
  end.

(** [bool(v)] *)
Definition truthy (v : pyval) : bool :=
  match v with
  | PStr s => negb (bool_decide (s = ""))
  | PInt z => negb (bool_decide (z = 0%Z))
  | PBool b => b
  | POther _ t => t
  end.

(** [v == s] and [v != s] against a [str]. *)
Definition eq_str (v : pyval) (s : string) : bool :=
  match v with
  | PStr t => bool_decide (t = s)
  | _ => false
  end.

Definition ne_str (v : pyval) (s : string) : bool := negb (eq_str v s).

Inductive event :=
  | EvLoadPlist (path : string)
  | EvReadText (path : string)
  | EvIsDir (path : string)
  | EvUrlopen (url : string)
  | EvShell (cmd : string)
  | EvExec (argv : list string).

Global Instance event_eq_dec : EqDecision event.
Proof. solve_decision. Defined.

(** The two global counters, the texts written to standard output (one
    entry per [print] call, terminator included) and the interactions with
    the outside world, oldest first. *)
Record state := State {
  passed : nat;
  failed : nat;
  stdout : list string;
  trace : list event
}.

Definition initial : state := State 0 0 [] [].

(** A finished child process. *)
Record completed := Completed {
  returncode : Z;
  proc_stdout : string;
  proc_stderr : string
}.

Record world := World {
  (** the directory above the one holding the script *)
  PROJECT_ROOT : string;
  (** what [os.path.expanduser] puts in place of the leading tilde *)
  user_home : string;
  (** [open] and [plistlib.load], and the lookup of [get] on the result *)
  load_plist : string → exn + gmap string pyval;
  (** [open] and [read] in text mode *)
  read_text : string → exn + string;
  (** [os.path.isdir] *)
  isdir : string → bool;
  (** [urlopen] with its timeout, [read] and [decode] *)
  fetch : string → exn + string;
  (** [subprocess.run] through the shell, and on an argument vector; the
      number is how many interactions came before *)
  shell : string → nat → exn + completed;
  exec : list string → nat → exn + completed
}.

(** Computations of the script: the state goes in, a value or a raised
    exception comes out with the state reached. *)
Definition M (A : Type) : Type := state → (exn + A) * state.

Definition ret {A} (x : A) : M A := λ st, (inr x, st).

Definition bind {A B} (m : M A) (k : A → M B) : M B :=
  λ st, match m st with
        | (inr x, st') => k x st'
        | (inl e, st') => (inl e, st')
        end.

Definition raise {A} (e : exn) : M A := λ st, (inl e, st).

(** [try: body / except Exception as e: handler e] *)
Definition try_except {A} (body : M A) (handler : exn → M A) : M A :=
  λ st, match body st with
        | (inl e, st') => handler e st'
        | r => r
        end.

Notation "x <- m ;; k" := (bind m (λ x, k))
  (at level 100, m at next level, right associativity).
Notation "m ;;; k" := (bind m (λ _, k))
  (at level 100, right associativity).

Definition nl : string := String Text.newline EmptyString.

(** [print(s, end=e)] on a standard output that takes the text. *)
Definition print_end (s e : string) : M unit :=
  λ st, (inr (), State (passed st) (failed st) (stdout st ++ [s +:+ e]) (trace st)).

(** [print(s)] *)
Definition print (s : string) : M unit := print_end s nl.

Definition incr_passed : M unit :=
  λ st, (inr (), State (S (passed st)) (failed st) (stdout st) (trace st)).

Definition incr_failed : M unit :=
  λ st, (inr (), State (passed st) (S (failed st)) (stdout st) (trace st)).

(** One interaction: note it, and hand the oracle the number of earlier
    ones. *)
Definition interact {A} (ev : event) (answer : nat → exn + A) : M A :=
  λ st, let st' := State (passed st) (failed st) (stdout st) (trace st ++ [ev]) in
        match answer (length (trace st)) with
        | inl e => (inl e, st')
        | inr x => (inr x, st')
        end.

(** ** The script *)

Section Script.

Context (w : world).

(** [os.path.join(a, b)] for a relative [b]. *)
Definition path_join (a b : string) : string :=
  match a with
  | EmptyString => b
  | _ => if Text.startswith "/" (String.rev a) then a +:+ b else a +:+ "/" +:+ b
  end.

Definition INFO_PLIST : string :=
  path_join (path_join (PROJECT_ROOT w) "Distribution") "Info.plist".
Definition CHANGELOG : string := path_join (PROJECT_ROOT w) "CHANGELOG.md".
Definition APP_BUNDLE : string :=
  path_join (path_join (PROJECT_ROOT w) "dist") "ContainerBar.app".
Definition HOMEBREW_CASK : string :=
  user_home w +:+ "/Desktop/homebrew-tap/Casks/containerbar.rb".
Definition GITHUB_REPO : string := "michaeltookes/ContainerBar".
Definition APPCAST_URL : string :=
  "https://michaeltookes.github.io/ContainerBar/appcast.xml".

Definition dq : string := String Text.dquote EmptyString.

(** The text after the label: [': ' + detail if detail else ''].  The
    concatenation raises [TypeError] on anything that is not a [str]. *)
Definition detail_suffix (detail : pyval) : M string :=
  if truthy detail then
    match detail with
    | PStr s => ret (": " +:+ s)
    | _ => raise (Exn TypeError
             ("can only concatenate str (not " +:+ dq +:+ type_name detail
              +:+ dq +:+ ") to str"))
    end
  else ret "".

Definition check (label : string) (condition : bool) (detail : pyval) : M unit :=
  if condition then
    incr_passed ;;;
    sfx <- detail_suffix detail ;;
    print ("  [PASS] " +:+ label +:+ sfx)
  else
    incr_failed ;;;
    sfx <- detail_suffix detail ;;
    print ("  [FAIL] " +:+ label +:+ sfx).

(** [run(cmd)] for a [str] command: through the shell; the answer is the
    return code and the stripped standard output. *)
Definition run (cmd : string) : M (Z * string) :=
  result <- interact (EvShell cmd) (shell w cmd) ;;
  ret (returncode result, Text.strip (proc_stdout result)).

Definition check_info_plist (version : string) : M unit :=
  try_except
    (plist <- interact (EvLoadPlist INFO_PLIST) (λ _, load_plist w INFO_PLIST) ;;
     let plist_version := default (PStr "") (plist !! "CFBundleShortVersionString") in
     let build_number := default (PStr "") (plist !! "CFBundleVersion") in
     check "Info.plist version" (eq_str plist_version version) plist_version ;;;
     check "Info.plist build" (ne_str build_number "") build_number)
    (λ e,
     check "Info.plist version" false (PStr (str_exn e)) ;;;
     check "Info.plist build" false (PStr "could not read")).

Definition changelog_pattern (version : string) : string :=
  "## \[" +:+ Re.escape version +:+ "\]".

(** The pattern is searched through [Re.search]; a pattern outside the
    literal fragment is answered with [re.error], which cannot happen for
    [changelog_pattern] (lemma [compile_changelog_pattern] below). *)
Definition check_changelog (version : string) : M unit :=
  try_except
    (content <- interact (EvReadText CHANGELOG) (λ _, read_text w CHANGELOG) ;;
     let pattern := changelog_pattern version in
     found <- match Re.search pattern content with
              | Some b => ret b
              | None => raise (Exn ReError "bad pattern")
              end ;;
     check "CHANGELOG.md entry found" found (PStr ""))
    (λ e, check "CHANGELOG.md entry found" false (PStr (str_exn e))).

Definition git_tag_cmd (tag : string) : string := "git tag -l " +:+ tag.

Definition check_git_tag (version : string) : M unit :=
  let tag := "v" +:+ version in
  r1 <- run (git_tag_cmd tag) ;;
  r2 <- run (git_tag_cmd tag) ;;
  let tags := snd r2 in
  check "Git tag exists" (Text.mem tag (Text.split Text.newline tags)) (PStr tag).

Definition check_homebrew_cask (version : string) : M unit :=
  try_except
    (content <- interact (EvReadText HOMEBREW_CASK) (λ _, read_text w HOMEBREW_CASK) ;;
     let cask_version := default "" (Re.search_cask content) in
     check "Homebrew cask version" (bool_decide (cask_version = version))
           (PStr cask_version))
    (λ e,
     match exn_cls e with
     | FileNotFoundError =>
         check "Homebrew cask version" false
               (PStr ("file not found: " +:+ HOMEBREW_CASK))
     | _ => check "Homebrew cask version" false (PStr (str_exn e))
     end).

Definition release_view_cmd (tag : string) : string :=
  "gh release view " +:+ tag +:+ " --repo " +:+ GITHUB_REPO.

Definition release_assets_cmd (tag : string) : string :=
  "gh release view " +:+ tag +:+ " --repo " +:+ GITHUB_REPO
  +:+ " --json assets -q '.assets[].name'".

Definition check_github_release (version : string) : M unit :=
  let tag := "v" +:+ version in
  r <- run (release_view_cmd tag) ;;
  let rc := fst r in
  check "GitHub release exists" (bool_decide (rc = 0%Z)) (PStr tag) ;;;
  if bool_decide (rc = 0%Z) then
    r2 <- run (release_assets_cmd tag) ;;
    let assets := snd r2 in
    let has_zip := Text.contains "ContainerBar.zip" assets in
    check "Release asset ContainerBar.zip uploaded" has_zip (PStr "")
  else
    check "Release asset ContainerBar.zip uploaded" false (PStr "release not found").

Definition check_appcast (version : string) : M unit :=
  try_except
    (data <- interact (EvUrlopen APPCAST_URL) (λ _, fetch w APPCAST_URL) ;;
     let found := Text.contains version data in
     check "Appcast contains version" found (PStr ("v" +:+ version)))
    (λ e, check "Appcast contains version" false (PStr (str_exn e))).

Definition spctl_cmd : string :=
  "spctl --assess --verbose=2 " +:+ dq +:+ APP_BUNDLE +:+ dq.

Definition spctl_argv : list string :=
  ["spctl"; "--assess"; "--verbose=2"; APP_BUNDLE].

Definition check_notarization : M unit :=
  present <- interact (EvIsDir APP_BUNDLE) (λ _, inr (isdir w APP_BUNDLE)) ;;
  if negb present then
    check "App notarization valid" false (PStr ("app not found: " +:+ APP_BUNDLE))
  else
    r <- run spctl_cmd ;;
    result <- interact (EvExec spctl_argv) (exec w spctl_argv) ;;
    let combined := proc_stdout result +:+ proc_stderr result in
    let accepted := Text.contains "accepted" (Text.lower combined) in
    check "App notarization valid" accepted
          (PStr (if negb accepted then Text.strip combined else "accepted")).

(** The seven checks, in the order [main] calls them. *)
Definition adapters (version : string) : M unit :=
  check_info_plist version ;;;
  check_changelog version ;;;
  check_git_tag version ;;;
  check_homebrew_cask version ;;;
  check_github_release version ;;;
  check_appcast version ;;;
  check_notarization.

(** How the process ends: [sys.exit(status)], or an exception nobody
    caught (the interpreter prints a traceback). *)
Inductive outcome :=
  | Exited (status : Z)
  | Uncaught (e : exn).

Definition dash : string := "—".

Definition summary : M unit :=
  λ st,
    let total := passed st + failed st in
    (print_end (nl +:+ "  " +:+ pretty (passed st) +:+ "/" +:+ pretty total
                +:+ " checks passed.") "" ;;;
     if bool_decide (failed st = 0) then
       print (" Release is complete." +:+ nl)
     else
       print (" " +:+ pretty (failed st) +:+ " check(s) failed " +:+ dash
              +:+ " review above." +:+ nl)) st.

(** [main()], with [sys.argv] = [prog :: args]. *)
Definition main (prog : string) (args : list string) : outcome * state :=
  match args with
  | [version] =>
      match (print (nl +:+ "  Release Validation: v" +:+ version) ;;;
             print ("  " +:+ Text.repeat_char "=" 30) ;;;
             adapters version ;;;
             summary) initial with
      | (inr _, st) => (Exited (if bool_decide (0 < failed st) then 1 else 0), st)
      | (inl e, st) => (Uncaught e, st)
      end
  | _ =>
      match (print ("Usage: " +:+ prog +:+ " <VERSION>") ;;;
             print ("Example: " +:+ prog +:+ " 1.2.0")) initial with
      | (_, st) => (Exited 2, st)
      end
  end.


End Script.

(** ** Vocabulary of the report *)

(** One verdict as [check] receives it with a textual detail. *)
Record CheckResult := Result {
  cr_label : string;
  cr_passed : bool;
  cr_detail : string
}.

(** The text [check] prints for a verdict. *)
Definition line (r : CheckResult) : string :=
  ((if cr_passed r then "  [PASS] " else "  [FAIL] ") +:+ cr_label r
   +:+ (if bool_decide (cr_detail r = "") then "" else ": " +:+ cr_detail r))
  +:+ nl.

Definition is_check_line (s : string) : bool :=
  Text.startswith "  [PASS] " s || Text.startswith "  [FAIL] " s.

Definition count_passed (rs : list CheckResult) : nat :=
  length (filter (λ r, cr_passed r = true) rs).

Definition count_failed (rs : list CheckResult) : nat :=
  length (filter (λ r, cr_passed r = false) rs).

(** The state after the verdicts [rs] were tallied and printed and the
    interactions [evs] took place. *)
Definition commit (st : state) (rs : list CheckResult) (evs : list event) : state :=
  State (passed st + count_passed rs) (failed st + count_failed rs)
        (stdout st ++ map line rs) (trace st ++ evs).

(** The labels, in the order of a run. *)
Definition LABELS : list string :=
  ["Info.plist version"; "Info.plist build"; "CHANGELOG.md entry found";
   "Git tag exists"; "Homebrew cask version"; "GitHub release exists";
   "Release asset ContainerBar.zip uploaded"; "Appcast contains version";
   "App notarization valid"].

Definition is_text (v : pyval) : bool :=
  match v with PStr _ => true | _ => false end.


(** How often the script interacted in the way [ev]. *)
Definition occurrences (ev : event) (st : state) : nat :=
  length (filter (λ e, e = ev) (trace st)).

(** The exception [e] came out of a child-process invocation. *)
Definition escaped (w : world) (e : exn) : Prop :=
  (∃ cmd n, shell w cmd n = inl e) ∨ (∃ argv n, exec w argv n = inl e).

(** From [st] to [st'] standard output only grew, and the new part has a
    verdict line for every label of [ls]. *)
Definition extends (ls : list string) (st st' : state) : Prop :=
  ∃ lines, stdout st' = stdout st ++ lines
           ∧ ∀ l, l ∈ ls → ∃ ok d, line (Result l ok d) ∈ lines.

(** What [main] prints before the first check and after the last. *)
Definition header (version : string) : list string :=
  [(nl +:+ "  Release Validation: v" +:+ version) +:+ nl;
   ("  " +:+ Text.repeat_char "=" 30) +:+ nl].

Definition footer (p f : nat) : list string :=
  [(nl +:+ "  " +:+ pretty p +:+ "/" +:+ pretty (p + f) +:+ " checks passed.") +:+ "";
   (if bool_decide (f = 0) then " Release is complete." +:+ nl
    else " " +:+ pretty f +:+ " check(s) failed " +:+ dash +:+ " review above." +:+ nl)
   +:+ nl].

(** A text that starts with a character other than the space. *)
Definition starts_unindented (s : string) : Prop :=
  ∃ a r, s = String a r ∧ a ≠ " "%char.

(** The state in which the first check starts. *)
Definition started (version : string) : state := State 0 0 (header version) [].

(** From [st] the computation [m] either returns, having tallied and
    printed one verdict for each label of [ls], or lets an exception out
    that a child-process invocation raised. *)
Definition settles (w : world) (ls : list string) (m : M unit) (st : state) : Prop :=
  (∃ rs evs, map cr_label rs = ls ∧ m st = (inr (), commit st rs evs))
  ∨ (∃ e rs evs, m st = (inl e, commit st rs evs) ∧ escaped w e).

(** ** Vocabulary of the further properties *)




(** The [TypeError] of [': ' + detail] for a [detail] that is not text. *)
Definition concat_error (detail : pyval) : exn :=
  Exn TypeError ("can only concatenate str (not " +:+ dq +:+ type_name detail
                 +:+ dq +:+ ") to str").

(** Everything a run for [version] may touch. *)
Definition allowed (w : world) (version : string) : list event :=
  [EvLoadPlist (INFO_PLIST w); EvReadText (CHANGELOG w);
   EvShell (git_tag_cmd ("v" +:+ version));
   EvReadText (HOMEBREW_CASK w);
   EvShell (release_view_cmd ("v" +:+ version));
   EvShell (release_assets_cmd ("v" +:+ version));
   EvUrlopen APPCAST_URL; EvIsDir (APP_BUNDLE w);
   EvShell (spctl_cmd w); EvExec (spctl_argv w)].

(** The number of verdicts among the texts [out], one text for each call
    of [print]: the texts that begin with one of the two verdict marks. *)
Definition verdict_lines (out : list string) : nat :=
  length (filter (λ s, is_check_line s = true) out).

(** From [st] to [st'] the counters did not go down, standard output and
    the trace only grew, no more verdicts were printed than checks were
    tallied, and nothing outside [allowed] was touched. *)
Definition advances (w : world) (version : string) (st st' : state) : Prop :=
  (passed st ≤ passed st')%nat ∧ (failed st ≤ failed st')%nat
  ∧ (∃ lines, stdout st' = stdout st ++ lines
              ∧ (passed st + failed st + verdict_lines lines
                 ≤ passed st' + failed st')%nat)
  ∧ (∃ evs, trace st' = trace st ++ evs
            ∧ Forall (λ ev, ev ∈ allowed w version) evs).

(** Whatever [m] answers from whatever state, the state advances. *)
Definition keeps {A} (w : world) (version : string) (m : M A) : Prop :=
  ∀ st r st', m st = (r, st') → advances w version st st'.

(** Whether the release-metadata call of a run for [version] succeeds; it
    is the sixth interaction of a run. *)
Definition released (w : world) (version : string) : bool :=
  match shell w (release_view_cmd ("v" +:+ version)) 5 with
  | inr c => bool_decide (returncode c = 0%Z)
  | inl _ => false
  end.

(** The interactions of a run for [version] that no exception cuts
    short. *)
Definition interactions (w : world) (version : string) : list event :=
  [EvLoadPlist (INFO_PLIST w); EvReadText (CHANGELOG w);
   EvShell (git_tag_cmd ("v" +:+ version)); EvShell (git_tag_cmd ("v" +:+ version));
   EvReadText (HOMEBREW_CASK w);
   EvShell (release_view_cmd ("v" +:+ version))]
  ++ (if released w version
      then [EvShell (release_assets_cmd ("v" +:+ version))] else [])
  ++ [EvUrlopen APPCAST_URL; EvIsDir (APP_BUNDLE w)]
  ++ (if isdir w (APP_BUNDLE w)
      then [EvShell (spctl_cmd w); EvExec (spctl_argv w)] else []).

(** Whenever [m] returns from [st], it has made the interactions [evs],
    in this order, and no other. *)
Definition makes (evs : list event) (m : M unit) (st : state) : Prop :=
  ∀ st', m st = (inr (), st') → trace st' = trace st ++ evs.

(** ** Sample worlds *)

Definition no_such_file : exn := Exn FileNotFoundError "No such file or directory".

(** Nothing is there: no files, no network, every command fails. *)
Definition w_void : world :=
  World "/repo" "/home/op"
        (λ _, inl no_such_file)
        (λ _, inl no_such_file)
        (λ _, false)
        (λ _, inl (Exn OtherException "timed out"))
        (λ _ _, inr (Completed 1 "" ""))
        (λ _ _, inr (Completed 1 "" "")).


(** As [w_void], but the property list loads and its build number is an
    integer. *)
Definition w_int_build : world :=
  World "/repo" "/home/op"
        (λ _, inr (<["CFBundleShortVersionString" := PStr "1.2.0"]>
                   (<["CFBundleVersion" := PInt 42]> ∅)))
        (λ _, inl no_such_file)
        (λ _, false)
        (λ _, inl (Exn OtherException "timed out"))
        (λ _ _, inr (Completed 1 "" ""))
        (λ _ _, inr (Completed 1 "" "")).

(** A release in good order for version 1.2.0. *)
Definition w_release : world :=
  World "/repo" "/home/op"
        (λ _, inr (<["CFBundleShortVersionString" := PStr "1.2.0"]>
                   (<["CFBundleVersion" := PStr "42"]> ∅)))
        (λ p, if decide (p = "/repo/CHANGELOG.md")
              then inr ("# Changelog" +:+ nl +:+ "## [1.2.0] - 2025-01-01" +:+ nl)
              else inr ("cask 'containerbar' do" +:+ nl +:+ "  version "
                        +:+ dq +:+ "1.2.0" +:+ dq +:+ nl))
        (λ _, true)
        (λ _, inr "<enclosure sparkle:shortVersionString='1.2.0'/>")
        (λ cmd _, if Text.startswith "git" cmd
                  then inr (Completed 0 ("v1.2.0" +:+ nl +:+ "v1.2.0-beta" +:+ nl) "")
                  else inr (Completed 0 ("ContainerBar.zip" +:+ nl) ""))
        (λ _ _, inr (Completed 0 "" ("ContainerBar.app: accepted" +:+ nl))).

(** The changelog has a heading whose bracket is closed on the next
    line. *)
Definition w_broken_heading : world :=
  World "/repo" "/home/op"
        (λ _, inl no_such_file)
        (λ _, inr ("## [1" +:+ nl +:+ "2]"))
        (λ _, false)
        (λ _, inl (Exn OtherException "timed out"))
        (λ _ _, inr (Completed 1 "" ""))
        (λ _ _, inr (Completed 1 "" "")).

(** Every command answers with the tag behind a blank. *)
Definition w_padded_tags : world :=
  World "/repo" "/home/op"
        (λ _, inl no_such_file)
        (λ _, inl no_such_file)
        (λ _, false)
        (λ _, inl (Exn OtherException "timed out"))
        (λ _ _, inr (Completed 0 (" v1.2.0" +:+ nl) ""))
        (λ _ _, inr (Completed 1 "" "")).

(** The no-break space U+00A0, in UTF-8. *)
Definition nbsp : string := String "194" (String "160" EmptyString).

(** * Properties *)

#[local] Arguments String.append : simpl nomatch.

(** ** Text *)

Section TextFacts.
Import Text.

Lemma app_assoc_s (a b c : string) : (a +:+ b) +:+ c = a +:+ (b +:+ c).
Proof. induction a as [|x a IH]; simpl; [reflexivity | f_equal; exact IH]. Qed.

Lemma app_nil_r_s (a : string) : a +:+ "" = a.
Proof. induction a as [|x a IH]; simpl; [reflexivity | f_equal; exact IH]. Qed.

Lemma startswith_app (p t : string) : startswith p (p +:+ t) = true.
Proof.
  induction p as [|a p IH]; simpl; [reflexivity|].
  destruct (decide (a = a)); [exact IH | congruence].
Qed.

Lemma startswith_inv (p s : string) :
  startswith p s = true → ∃ t, s = p +:+ t.
Proof.
  revert s. induction p as [|a p IH]; intros s H.
  - exists s. reflexivity.
  - destruct s as [|b s]; simpl in H; [discriminate|].
    destruct (decide (a = b)) as [->|]; [|discriminate].
    destruct (IH _ H) as [t ->]. exists t. reflexivity.
Qed.

Lemma contains_unfold (needle hay : string) :
  contains needle hay =
  if startswith needle hay then true
  else match hay with
       | EmptyString => false
       | String _ hay' => contains needle hay'
       end.
Proof. destruct hay; reflexivity. Qed.

(** [needle in hay] holds exactly when [hay] has [needle] somewhere
    inside it. *)
Lemma contains_spec (needle hay : string) :
  contains needle hay = true ↔ ∃ pre post, hay = pre +:+ needle +:+ post.
Proof.
  split.
  - induction hay as [|a hay IH]; simpl.
    + destruct (startswith needle "") eqn:E; [|discriminate].
      intros _. destruct (startswith_inv _ _ E) as [t Ht].
      exists "", t. exact Ht.
    + destruct (startswith needle (String a hay)) eqn:E.
      * intros _. destruct (startswith_inv _ _ E) as [t Ht].
        exists "", t. exact Ht.
      * intros H. destruct (IH H) as (pre & post & ->).
        exists (String a pre), post. reflexivity.
  - intros (pre & post & ->). induction pre as [|a pre IH]; simpl.
    + rewrite contains_unfold, startswith_app. reflexivity.
    + destruct (startswith needle (String a (pre +:+ needle +:+ post)));
        [reflexivity | exact IH].
Qed.

Lemma contains_empty (hay : string) : contains "" hay = true.
Proof. destruct hay; reflexivity. Qed.

Lemma mem_spec (x : string) (xs : list string) : mem x xs = true ↔ x ∈ xs.
Proof. unfold mem. apply bool_decide_eq_true. Qed.

End TextFacts.

(** ** Patterns *)

Section ReFacts.
Import Text Re.

Lemma special_not_alnum (a : ascii) : is_special a = true → is_alnum a = false.
Proof.
  destruct a as [[] [] [] [] [] [] [] []]; vm_compute; congruence.
Qed.

Lemma plain_not_meta (a : ascii) :
  is_special a = false → a ≠ backslash ∧ is_meta a = false.
Proof.
  destruct a as [[] [] [] [] [] [] [] []]; vm_compute; intros H;
    first [discriminate H | split; [discriminate | reflexivity]].
Qed.

(** An escaped text compiles to itself, whatever follows. *)
Lemma compile_escape (v rest : string) :
  compile (escape v +:+ rest) = String.append v <$> compile rest.
Proof.
  induction v as [|a v IH]; simpl.
  - destruct (compile rest); reflexivity.
  - destruct (is_special a) eqn:E; simpl.
    + destruct (decide (backslash = backslash)); [|congruence].
      rewrite (special_not_alnum _ E), IH.
      destruct (compile rest); reflexivity.
    + destruct (plain_not_meta _ E) as [Hb Hm].
      destruct (decide (a = backslash)); [congruence|].
      rewrite Hm, IH. destruct (compile rest); reflexivity.
Qed.

(** The changelog pattern never fails to compile and stands for the
    heading marker, an opening bracket, the version as it is, and a
    closing bracket. *)
Lemma compile_changelog_pattern (version : string) :
  compile (changelog_pattern version) = Some ("## [" +:+ version +:+ "]").
Proof.
  unfold changelog_pattern.
  change ("## \[" +:+ escape version +:+ "\]")
    with (String "#" (String "#" (String " " (String backslash (String "["
            (escape version +:+ "\]")))))).
  cbn [compile].
  repeat (destruct (decide _); [discriminate|]); simpl.
  destruct (decide (backslash = backslash)); [|congruence].
  simpl. rewrite compile_escape. reflexivity.
Qed.

Lemma search_changelog_pattern (version content : string) :
  search (changelog_pattern version) content
  = Some (contains ("## [" +:+ version +:+ "]") content).
Proof. unfold search. rewrite compile_changelog_pattern. reflexivity. Qed.

End ReFacts.

(** ** Tallying *)

#[local] Arguments commit : simpl never.
#[local] Arguments check : simpl never.
#[local] Arguments interact : simpl never.

Lemma count_passed_app (rs rs' : list CheckResult) :
  count_passed (rs ++ rs') = count_passed rs + count_passed rs'.
Proof. unfold count_passed. now rewrite filter_app, length_app. Qed.

Lemma count_failed_app (rs rs' : list CheckResult) :
  count_failed (rs ++ rs') = count_failed rs + count_failed rs'.
Proof. unfold count_failed. now rewrite filter_app, length_app. Qed.

(** Every verdict is counted once, on one side. *)
Lemma count_total (rs : list CheckResult) :
  count_passed rs + count_failed rs = length rs.
Proof.
  unfold count_passed, count_failed.
  induction rs as [|r rs IH]; [reflexivity|].
  rewrite !filter_cons. destruct r as [l [] d]; simpl in *.
  - repeat case_decide; try congruence; simpl; lia.
  - repeat case_decide; try congruence; simpl; lia.
Qed.


Lemma commit_commit st rs evs rs' evs' :
  commit (commit st rs evs) rs' evs' = commit st (rs ++ rs') (evs ++ evs').
Proof.
  unfold commit; simpl.
  rewrite count_passed_app, count_failed_app, map_app, !app_assoc, !Nat.add_assoc.
  reflexivity.
Qed.

Lemma trace_commit st rs evs : trace (commit st rs evs) = trace st ++ evs.
Proof. reflexivity. Qed.

Lemma stdout_commit st rs evs : stdout (commit st rs evs) = stdout st ++ map line rs.
Proof. reflexivity. Qed.


Lemma is_check_line_line (r : CheckResult) : is_check_line (line r) = true.
Proof. destruct r as [l [] d]; reflexivity. Qed.

Lemma filter_check_lines (rs : list CheckResult) :
  filter (λ s, is_check_line s = true) (map line rs) = map line rs.
Proof.
  induction rs as [|r rs IH]; [reflexivity|].
  simpl. rewrite filter_cons, is_check_line_line.
  case_decide; [now rewrite IH | congruence].
Qed.

(** ** The monad *)

Section MonadFacts.
Context {A B : Type}.

Lemma bind_ok (m : M A) (k : A → M B) st x st1 :
  m st = (inr x, st1) → bind m k st = k x st1.
Proof. unfold bind. now intros ->. Qed.

Lemma bind_raise (m : M A) (k : A → M B) st e st1 :
  m st = (inl e, st1) → bind m k st = (inl e, st1).
Proof. unfold bind. now intros ->. Qed.




Lemma interact_eval (ev : event) (answer : nat → exn + A) st :
  interact ev answer st = (answer (length (trace st)), commit st [] [ev]).
Proof.
  unfold interact, commit. destruct st as [p f o t]; simpl.
  rewrite !Nat.add_0_r, app_nil_r. now destruct (answer (length t)).
Qed.

End MonadFacts.

(** ** The checks, one by one *)

Section AdapterFacts.
Context (w : world).

(** [check] with a textual detail tallies and prints one verdict and never
    raises. *)
Lemma check_text label cond d st :
  check label cond (PStr d) st = (inr (), commit st [Result label cond d] []).
Proof.
  destruct st as [p f o t].
  unfold check, commit, line, count_passed, count_failed, detail_suffix, bind,
    incr_passed, incr_failed, print, print_end, ret, truthy.
  destruct cond; simpl; case_bool_decide; simpl;
    rewrite ?filter_cons, ?filter_nil; repeat case_decide; try congruence; simpl;
    rewrite ?Nat.add_0_r, ?Nat.add_1_r, ?app_nil_r; reflexivity.
Qed.

(** A detail that is true and not text makes [check] raise after the
    counter has moved and before anything is printed. *)
Lemma check_not_text label cond d st :
  truthy d = true → is_text d = false →
  ∃ e, check label cond d st
       = (inl e, State (passed st + (if cond then 1 else 0))
                       (failed st + (if cond then 0 else 1))
                       (stdout st) (trace st)).
Proof.
  intros Ht Hn. destruct st as [p f o t].
  unfold check, detail_suffix, bind, incr_passed, incr_failed, raise.
  rewrite Ht.
  destruct d; try discriminate; destruct cond; simpl;
    rewrite ?Nat.add_0_r, ?Nat.add_1_r; eexists; reflexivity.
Qed.

(** A false detail prints as no detail. *)
Lemma check_falsy label cond d st :
  truthy d = false →
  check label cond d st = (inr (), commit st [Result label cond ""] []).
Proof.
  intros Ht. rewrite <- (check_text label cond "" st).
  unfold check, detail_suffix. rewrite Ht. reflexivity.
Qed.

Ltac exec :=
  repeat first
    [ rewrite interact_eval
    | rewrite check_text
    | rewrite commit_commit
    | progress cbn [bind try_except ret raise fst snd app negb] ].

Lemma run_eval cmd st :
  run w cmd st
  = (match shell w cmd (length (trace st)) with
     | inl e => inl e
     | inr c => inr (returncode c, Text.strip (proc_stdout c))
     end, commit st [] [EvShell cmd]).
Proof.
  unfold run, bind. rewrite interact_eval.
  destruct (shell w cmd (length (trace st))); reflexivity.
Qed.

(** *** Bundle metadata *)

Lemma check_info_plist_error version e st :
  load_plist w (INFO_PLIST w) = inl e →
  check_info_plist w version st
  = (inr (), commit st [Result "Info.plist version" false (str_exn e);
                        Result "Info.plist build" false "could not read"]
                       [EvLoadPlist (INFO_PLIST w)]).
Proof.
  intros H. unfold check_info_plist, try_except, bind.
  rewrite interact_eval, H. exec. reflexivity.
Qed.


(** *** Changelog *)

Lemma check_changelog_error version e st :
  read_text w (CHANGELOG w) = inl e →
  check_changelog w version st
  = (inr (), commit st [Result "CHANGELOG.md entry found" false (str_exn e)]
                       [EvReadText (CHANGELOG w)]).
Proof.
  intros H. unfold check_changelog, try_except, bind.
  rewrite interact_eval, H. exec. reflexivity.
Qed.

Lemma check_changelog_read version content st :
  read_text w (CHANGELOG w) = inr content →
  check_changelog w version st
  = (inr (), commit st [Result "CHANGELOG.md entry found"
                               (Text.contains ("## [" +:+ version +:+ "]") content) ""]
                       [EvReadText (CHANGELOG w)]).
Proof.
  intros H. unfold check_changelog, try_except, bind.
  rewrite interact_eval, H, search_changelog_pattern. exec. reflexivity.
Qed.

(** *** Version-control tag *)

Lemma check_git_tag_returns version c1 c2 st :
  shell w (git_tag_cmd ("v" +:+ version)) (length (trace st)) = inr c1 →
  shell w (git_tag_cmd ("v" +:+ version)) (S (length (trace st))) = inr c2 →
  check_git_tag w version st
  = (inr (), commit st
       [Result "Git tag exists"
               (Text.mem ("v" +:+ version)
                         (Text.split Text.newline (Text.strip (proc_stdout c2))))
               ("v" +:+ version)]
       [EvShell (git_tag_cmd ("v" +:+ version)); EvShell (git_tag_cmd ("v" +:+ version))]).
Proof.
  intros H1 H2. unfold check_git_tag, bind.
  rewrite run_eval, H1, run_eval, trace_commit, length_app, Nat.add_1_r, H2.
  exec. reflexivity.
Qed.

Lemma check_git_tag_first_raises version e st :
  shell w (git_tag_cmd ("v" +:+ version)) (length (trace st)) = inl e →
  check_git_tag w version st
  = (inl e, commit st [] [EvShell (git_tag_cmd ("v" +:+ version))]).
Proof.
  intros H1. unfold check_git_tag, bind.
  rewrite run_eval, H1. reflexivity.
Qed.

Lemma check_git_tag_second_raises version c1 e st :
  shell w (git_tag_cmd ("v" +:+ version)) (length (trace st)) = inr c1 →
  shell w (git_tag_cmd ("v" +:+ version)) (S (length (trace st))) = inl e →
  check_git_tag w version st
  = (inl e, commit st [] [EvShell (git_tag_cmd ("v" +:+ version)); EvShell (git_tag_cmd ("v" +:+ version))]).
Proof.
  intros H1 H2. unfold check_git_tag, bind.
  rewrite run_eval, H1, run_eval, trace_commit, length_app, Nat.add_1_r, H2.
  exec. reflexivity.
Qed.

(** *** Package manifest *)

Lemma check_homebrew_cask_returns version st :
  ∃ ok d,
    check_homebrew_cask w version st
    = (inr (), commit st [Result "Homebrew cask version" ok d]
                         [EvReadText (HOMEBREW_CASK w)]).
Proof.
  unfold check_homebrew_cask, try_except, bind. rewrite interact_eval.
  destruct (read_text w (HOMEBREW_CASK w)) as [e|content].
  - destruct (exn_cls e); exec; eexists _, _; reflexivity.
  - exec. eexists _, _; reflexivity.
Qed.


(** *** Release host *)

Lemma check_github_release_missing version c st :
  shell w (release_view_cmd ("v" +:+ version)) (length (trace st)) = inr c →
  returncode c ≠ 0%Z →
  check_github_release w version st
  = (inr (), commit st
       [Result "GitHub release exists" false ("v" +:+ version);
        Result "Release asset ContainerBar.zip uploaded" false "release not found"]
       [EvShell (release_view_cmd ("v" +:+ version))]).
Proof.
  intros H Hrc. unfold check_github_release, bind.
  rewrite run_eval, H. cbn [fst].
  rewrite (bool_decide_eq_false_2 _ Hrc). exec. reflexivity.
Qed.

Lemma check_github_release_found version c c2 st :
  shell w (release_view_cmd ("v" +:+ version)) (length (trace st)) = inr c →
  returncode c = 0%Z →
  shell w (release_assets_cmd ("v" +:+ version)) (S (length (trace st))) = inr c2 →
  check_github_release w version st
  = (inr (), commit st
       [Result "GitHub release exists" true ("v" +:+ version);
        Result "Release asset ContainerBar.zip uploaded"
               (Text.contains "ContainerBar.zip" (Text.strip (proc_stdout c2))) ""]
       [EvShell (release_view_cmd ("v" +:+ version));
        EvShell (release_assets_cmd ("v" +:+ version))]).
Proof.
  intros H Hrc H2. unfold check_github_release, bind.
  rewrite run_eval, H. cbn [fst].
  rewrite (bool_decide_eq_true_2 _ Hrc). exec.
  rewrite run_eval, trace_commit, length_app, Nat.add_1_r, H2. exec. reflexivity.
Qed.

(** *** Update feed *)

Lemma check_appcast_error version e st :
  fetch w APPCAST_URL = inl e →
  check_appcast w version st
  = (inr (), commit st [Result "Appcast contains version" false (str_exn e)]
                       [EvUrlopen APPCAST_URL]).
Proof.
  intros H. unfold check_appcast, try_except, bind.
  rewrite interact_eval, H. exec. reflexivity.
Qed.

Lemma check_appcast_fetched version data st :
  fetch w APPCAST_URL = inr data →
  check_appcast w version st
  = (inr (), commit st [Result "Appcast contains version"
                               (Text.contains version data) ("v" +:+ version)]
                       [EvUrlopen APPCAST_URL]).
Proof.
  intros H. unfold check_appcast, try_except, bind.
  rewrite interact_eval, H. exec. reflexivity.
Qed.

(** *** Code signing *)

Lemma check_notarization_missing st :
  isdir w (APP_BUNDLE w) = false →
  check_notarization w st
  = (inr (), commit st [Result "App notarization valid" false
                               ("app not found: " +:+ APP_BUNDLE w)]
                       [EvIsDir (APP_BUNDLE w)]).
Proof.
  intros H. unfold check_notarization, bind.
  rewrite interact_eval, H. exec. reflexivity.
Qed.

Lemma check_notarization_present c1 c2 st :
  isdir w (APP_BUNDLE w) = true →
  shell w (spctl_cmd w) (S (length (trace st))) = inr c1 →
  exec w (spctl_argv w) (S (S (length (trace st)))) = inr c2 →
  ∃ ok d,
    check_notarization w st
    = (inr (), commit st [Result "App notarization valid" ok d]
                         [EvIsDir (APP_BUNDLE w); EvShell (spctl_cmd w);
                          EvExec (spctl_argv w)]).
Proof.
  intros H H1 H2. unfold check_notarization, bind.
  rewrite interact_eval, H. cbn [negb].
  rewrite run_eval, trace_commit, length_app, Nat.add_1_r, H1.
  rewrite interact_eval, commit_commit, trace_commit, length_app. cbn [length app].
  replace (length (trace st) + 2) with (S (S (length (trace st)))) by lia.
  rewrite H2. exec. eexists _, _; reflexivity.
Qed.

End AdapterFacts.

(** ** The whole run *)

Section RunFacts.
Context (w : world).

(** [check] on any detail: either it prints a verdict, or it raises and
    prints nothing. *)
Lemma check_cases label cond d st :
  (∃ t, check label cond d st = (inr (), commit st [Result label cond t] []))
  ∨ (∃ e st', check label cond d st = (inl e, st') ∧ stdout st' = stdout st
              ∧ trace st' = trace st).
Proof.
  destruct (truthy d) eqn:Ht.
  - destruct (is_text d) eqn:Hx.
    + destruct d; try discriminate. left. eexists. apply check_text.
    + right. destruct (check_not_text label cond d st Ht Hx) as [e He].
      eexists _, _. split; [exact He | split; reflexivity].
  - left. eexists. now apply check_falsy.
Qed.

Lemma extends_after ls st st2 rs evs :
  (∃ pre, stdout st2 = stdout st ++ pre) →
  (∀ l, l ∈ ls → l ∈ map cr_label rs) →
  extends ls st (commit st2 rs evs).
Proof.
  intros [pre Hpre] Hsub. exists (pre ++ map line rs). split.
  - now rewrite stdout_commit, Hpre, app_assoc.
  - intros l Hl. apply Hsub, list_elem_of_fmap in Hl as (r & -> & Hr).
    exists (cr_passed r), (cr_detail r). apply elem_of_app. right.
    apply list_elem_of_fmap. exists r. split; [now destruct r | exact Hr].
Qed.

(** The bundle-metadata check returns whatever the property list holds,
    reports on both of its labels and reads the file once. *)
Lemma check_info_plist_any version st :
  ∃ st', check_info_plist w version st = (inr (), st')
         ∧ extends ["Info.plist version"; "Info.plist build"] st st'
         ∧ trace st' = trace st ++ [EvLoadPlist (INFO_PLIST w)].
Proof.
  destruct (load_plist w (INFO_PLIST w)) as [e|plist] eqn:Hload.
  - rewrite (check_info_plist_error w version e st Hload).
    eexists. split; [reflexivity|]. split; [|reflexivity].
    apply extends_after; [exists []; now rewrite app_nil_r | intros l Hl; exact Hl].
  - unfold check_info_plist, try_except, bind. rewrite interact_eval, Hload.
    set (v := default (PStr "") (plist !! "CFBundleShortVersionString")).
    set (b := default (PStr "") (plist !! "CFBundleVersion")).
    destruct (check_cases "Info.plist version" (eq_str v version) v
                (commit st [] [EvLoadPlist (INFO_PLIST w)]))
      as [[t ->]|(e & st2 & -> & Ho & Ht)].
    + rewrite commit_commit.
      destruct (check_cases "Info.plist build" (ne_str b "") b
                  (commit st ([] ++ [Result "Info.plist version" (eq_str v version) t])
                     ([EvLoadPlist (INFO_PLIST w)] ++ [])))
        as [[t' ->]|(e & st3 & -> & Ho & Ht)].
      * rewrite commit_commit. eexists. split; [reflexivity|]. split; [|reflexivity].
        apply extends_after; [exists []; now rewrite app_nil_r | intros l Hl; exact Hl].
      * rewrite !check_text, commit_commit. eexists. split; [reflexivity|]. split.
        -- apply extends_after; [eexists; rewrite Ho; apply stdout_commit|].
           intros l Hl; exact Hl.
        -- rewrite trace_commit, Ht, trace_commit. now rewrite !app_nil_r.
    + rewrite !check_text, commit_commit. eexists. split; [reflexivity|]. split.
      * apply extends_after; [exists []; rewrite Ho; reflexivity|].
        intros l Hl; exact Hl.
      * rewrite trace_commit, Ht, trace_commit. now rewrite !app_nil_r.
Qed.

Lemma settles_seq ls1 ls2 (m1 m2 : M unit) st :
  settles w ls1 m1 st → (∀ st', settles w ls2 m2 st') →
  settles w (ls1 ++ ls2) (m1 ;;; m2) st.
Proof.
  intros [(rs & evs & Hl & H1)|(e & rs & evs & H1 & He)] H2.
  - destruct (H2 (commit st rs evs))
      as [(rs' & evs' & Hl' & H2')|(e & rs' & evs' & H2' & He)].
    + left. exists (rs ++ rs'), (evs ++ evs'). split.
      * now rewrite map_app, Hl, Hl'.
      * rewrite (bind_ok _ _ _ _ _ H1), H2', commit_commit. reflexivity.
    + right. exists e, (rs ++ rs'), (evs ++ evs'). split; [|exact He].
      rewrite (bind_ok _ _ _ _ _ H1), H2', commit_commit. reflexivity.
  - right. exists e, rs, evs. split; [|exact He].
    now rewrite (bind_raise _ _ _ _ _ H1).
Qed.


Lemma settles_changelog version st :
  settles w ["CHANGELOG.md entry found"] (check_changelog w version) st.
Proof.
  left. destruct (read_text w (CHANGELOG w)) as [e|content] eqn:H.
  - eexists _, _. split; [|exact (check_changelog_error w version e st H)].
    reflexivity.
  - eexists _, _. split; [|exact (check_changelog_read w version content st H)].
    reflexivity.
Qed.

Lemma settles_git_tag version st :
  settles w ["Git tag exists"] (check_git_tag w version) st.
Proof.
  destruct (shell w (git_tag_cmd ("v" +:+ version)) (length (trace st)))
    as [e|c1] eqn:H1.
  - right. eexists e, [], _. split.
    + exact (check_git_tag_first_raises w version e st H1).
    + left. eauto.
  - destruct (shell w (git_tag_cmd ("v" +:+ version)) (S (length (trace st))))
      as [e|c2] eqn:H2.
    + right. eexists e, [], _. split.
      * exact (check_git_tag_second_raises w version c1 e st H1 H2).
      * left. eauto.
    + left. eexists _, _. split;
        [|exact (check_git_tag_returns w version c1 c2 st H1 H2)].
      reflexivity.
Qed.

Lemma settles_homebrew_cask version st :
  settles w ["Homebrew cask version"] (check_homebrew_cask w version) st.
Proof.
  left. destruct (check_homebrew_cask_returns w version st) as (ok & d & H).
  eexists _, _. split; [|exact H]. reflexivity.
Qed.

Lemma check_github_release_raises version e st :
  shell w (release_view_cmd ("v" +:+ version)) (length (trace st)) = inl e →
  check_github_release w version st
  = (inl e, commit st [] [EvShell (release_view_cmd ("v" +:+ version))]).
Proof.
  intros H. unfold check_github_release, bind. rewrite run_eval, H. reflexivity.
Qed.

Lemma check_github_release_assets_raise version c e st :
  shell w (release_view_cmd ("v" +:+ version)) (length (trace st)) = inr c →
  returncode c = 0%Z →
  shell w (release_assets_cmd ("v" +:+ version)) (S (length (trace st))) = inl e →
  check_github_release w version st
  = (inl e, commit st [Result "GitHub release exists" true ("v" +:+ version)]
                      [EvShell (release_view_cmd ("v" +:+ version));
                       EvShell (release_assets_cmd ("v" +:+ version))]).
Proof.
  intros H Hrc H2. unfold check_github_release, bind.
  rewrite run_eval, H. cbn [fst].
  rewrite (bool_decide_eq_true_2 _ Hrc), check_text, commit_commit.
  rewrite run_eval, trace_commit, length_app, Nat.add_1_r, H2, commit_commit.
  reflexivity.
Qed.

Lemma settles_github_release version st :
  settles w ["GitHub release exists"; "Release asset ContainerBar.zip uploaded"]
          (check_github_release w version) st.
Proof.
  destruct (shell w (release_view_cmd ("v" +:+ version)) (length (trace st)))
    as [e|c] eqn:H1.
  - right. eexists e, [], _. split.
    + exact (check_github_release_raises version e st H1).
    + left. eauto.
  - destruct (decide (returncode c = 0%Z)) as [Hrc|Hrc].
    + destruct (shell w (release_assets_cmd ("v" +:+ version)) (S (length (trace st))))
        as [e|c2] eqn:H2.
      * right. eexists e, _, _. split.
        -- exact (check_github_release_assets_raise version c e st H1 Hrc H2).
        -- left. eauto.
      * left. eexists _, _. split;
          [|exact (check_github_release_found w version c c2 st H1 Hrc H2)].
        reflexivity.
    + left. eexists _, _. split;
        [|exact (check_github_release_missing w version c st H1 Hrc)].
      reflexivity.
Qed.

Lemma settles_appcast version st :
  settles w ["Appcast contains version"] (check_appcast w version) st.
Proof.
  left. destruct (fetch w APPCAST_URL) as [e|data] eqn:H.
  - eexists _, _. split; [|exact (check_appcast_error w version e st H)].
    reflexivity.
  - eexists _, _. split; [|exact (check_appcast_fetched w version data st H)].
    reflexivity.
Qed.

Lemma check_notarization_shell_raises e st :
  isdir w (APP_BUNDLE w) = true →
  shell w (spctl_cmd w) (S (length (trace st))) = inl e →
  check_notarization w st
  = (inl e, commit st [] [EvIsDir (APP_BUNDLE w); EvShell (spctl_cmd w)]).
Proof.
  intros H H1. unfold check_notarization, bind.
  rewrite interact_eval, H. cbn [negb].
  rewrite run_eval, trace_commit, length_app, Nat.add_1_r, H1, commit_commit.
  reflexivity.
Qed.

Lemma check_notarization_exec_raises c1 e st :
  isdir w (APP_BUNDLE w) = true →
  shell w (spctl_cmd w) (S (length (trace st))) = inr c1 →
  exec w (spctl_argv w) (S (S (length (trace st)))) = inl e →
  check_notarization w st
  = (inl e, commit st [] [EvIsDir (APP_BUNDLE w); EvShell (spctl_cmd w);
                          EvExec (spctl_argv w)]).
Proof.
  intros H H1 H2. unfold check_notarization, bind.
  rewrite interact_eval, H. cbn [negb].
  rewrite run_eval, trace_commit, length_app, Nat.add_1_r, H1.
  rewrite interact_eval, commit_commit, trace_commit, length_app. cbn [length app].
  replace (length (trace st) + 2) with (S (S (length (trace st)))) by lia.
  rewrite H2, commit_commit. reflexivity.
Qed.

Lemma settles_notarization st :
  settles w ["App notarization valid"] (check_notarization w) st.
Proof.
  destruct (isdir w (APP_BUNDLE w)) eqn:H.
  - destruct (shell w (spctl_cmd w) (S (length (trace st)))) as [e|c1] eqn:H1.
    + right. eexists e, [], _. split.
      * exact (check_notarization_shell_raises e st H H1).
      * left. eauto.
    + destruct (exec w (spctl_argv w) (S (S (length (trace st))))) as [e|c2] eqn:H2.
      * right. eexists e, [], _. split.
        -- exact (check_notarization_exec_raises c1 e st H H1 H2).
        -- right. eauto.
      * left. destruct (check_notarization_present w c1 c2 st H H1 H2) as (ok & d & Hc).
        eexists _, _. split; [|exact Hc]. reflexivity.
  - left. eexists _, _. split; [|exact (check_notarization_missing w st H)].
    reflexivity.
Qed.


(** [main] around the seven checks. *)
Lemma main_returns prog version st7 :
  adapters w version (started version) = (inr (), st7) →
  main w prog [version]
  = (Exited (if bool_decide (0 < failed st7) then 1 else 0),
     State (passed st7) (failed st7)
           (stdout st7 ++ footer (passed st7) (failed st7)) (trace st7)).
Proof.
  intros H. unfold main.
  cbn [bind print print_end initial passed failed stdout trace app].
  change (State 0 0 _ []) with (started version).
  rewrite (bind_ok _ _ _ _ _ H). unfold summary, footer, bind, print, print_end.
  cbn [passed failed stdout trace].
  destruct (bool_decide (failed st7 = 0)); cbn [passed failed stdout trace];
    rewrite <- app_assoc; reflexivity.
Qed.

Lemma main_raises prog version e st' :
  adapters w version (started version) = (inl e, st') →
  main w prog [version] = (Uncaught e, st').
Proof.
  intros H. unfold main.
  cbn [bind print print_end initial passed failed stdout trace app].
  change (State 0 0 _ []) with (started version).
  rewrite (bind_raise _ _ _ _ _ H). reflexivity.
Qed.

Lemma main_usage prog args :
  length args ≠ 1 →
  main w prog args
  = (Exited 2, State 0 0 [("Usage: " +:+ prog +:+ " <VERSION>") +:+ nl;
                          ("Example: " +:+ prog +:+ " 1.2.0") +:+ nl] []).
Proof.
  intros H. destruct args as [|a [|b args]]; [reflexivity | | reflexivity].
  now contradiction H.
Qed.

End RunFacts.

(** ** Lines *)

Section LineFacts.
Import Text.

Lemma split_cons (c a : ascii) (s : string) :
  split c (String a s)
  = if decide (a = c) then EmptyString :: split c s
    else match split c s with
         | h :: t => String a h :: t
         | [] => [String a EmptyString]
         end.
Proof. reflexivity. Qed.

Lemma split_not_nil (c : ascii) (s : string) : split c s ≠ [].
Proof.
  destruct s as [|a s]; [discriminate|].
  rewrite split_cons. destruct (decide (a = c)); [discriminate|].
  destruct (split c s); discriminate.
Qed.

(** The first line is a prefix of the text. *)
Lemma split_head_prefix (c : ascii) (s h : string) (t : list string) :
  split c s = h :: t → ∃ r, s = h +:+ r.
Proof.
  revert h t. induction s as [|a s IH]; intros h t H.
  - injection H as <- <-. now exists "".
  - rewrite split_cons in H. destruct (decide (a = c)).
    + injection H as <- <-. now exists (String a s).
    + destruct (split c s) as [|h' t'] eqn:E; [now destruct (split_not_nil c s)|].
      injection H as <- <-. destruct (IH h' t' eq_refl) as [r ->].
      now exists r.
Qed.

Lemma startswith_app_r (m h r : string) :
  startswith m h = true → startswith m (h +:+ r) = true.
Proof.
  intros H. destruct (startswith_inv _ _ H) as [t ->].
  rewrite app_assoc_s. apply startswith_app.
Qed.

(** A prefix without the separator lies within the first line. *)
Lemma startswith_first_line (c : ascii) (m s h : string) (t : list string) :
  has_char c m = false → startswith m s = true → split c s = h :: t →
  startswith m h = true.
Proof.
  revert s h t. induction m as [|a m IH]; intros s h t Hc Hs Hsp; [reflexivity|].
  destruct s as [|b s]; [discriminate|].
  simpl in Hs, Hc. destruct (decide (a = b)) as [<-|]; [|discriminate].
  destruct (decide (a = c)); [discriminate|].
  rewrite split_cons in Hsp. destruct (decide (a = c)); [contradiction|].
  destruct (split c s) as [|h' t'] eqn:E; [now destruct (split_not_nil c s)|].
  injection Hsp as <- <-. simpl. destruct (decide (a = a)); [|congruence].
  exact (IH s h' t' Hc Hs E).
Qed.

Lemma contains_cons (m s : string) (a : ascii) :
  contains m s = true → contains m (String a s) = true.
Proof.
  intros H. rewrite contains_unfold.
  destruct (startswith m (String a s)); [reflexivity | exact H].
Qed.

Lemma contains_nil (m : string) : contains m "" = true → m = "".
Proof.
  rewrite contains_unfold. destruct m; [reflexivity | discriminate].
Qed.

(** If a line contains the text, so does the whole. *)
Lemma contains_of_line (c : ascii) (m s l : string) :
  l ∈ split c s → contains m l = true → contains m s = true.
Proof.
  revert l. induction s as [|a s IH]; intros l Hl Hm.
  - apply list_elem_of_singleton in Hl as ->. exact Hm.
  - rewrite split_cons in Hl. destruct (decide (a = c)).
    + apply elem_of_cons in Hl as [->|Hl].
      * rewrite (contains_nil _ Hm). apply contains_empty.
      * apply contains_cons. exact (IH l Hl Hm).
    + destruct (split c s) as [|h t] eqn:E; [now destruct (split_not_nil c s)|].
      apply elem_of_cons in Hl as [->|Hl].
      * rewrite contains_unfold in Hm.
        destruct (startswith m (String a h)) eqn:Hs.
        -- destruct (split_head_prefix c s h t E) as [r ->].
           rewrite contains_unfold.
           change (String a (h +:+ r)) with (String a h +:+ r).
           now rewrite (startswith_app_r _ _ r Hs).
        -- apply contains_cons. apply (IH h); [left | exact Hm].
      * apply contains_cons. apply (IH l); [now right | exact Hm].
Qed.

(** A text without the separator that occurs in the whole occurs in one
    of the lines. *)
Lemma contains_in_line (c : ascii) (m s : string) :
  has_char c m = false → contains m s = true →
  ∃ l, l ∈ split c s ∧ contains m l = true.
Proof.
  intros Hc. induction s as [|a s IH]; intros Hm.
  - exists "". split; [left | exact Hm].
  - rewrite contains_unfold in Hm.
    destruct (startswith m (String a s)) eqn:Hs.
    + destruct (split c (String a s)) as [|h t] eqn:E;
        [now destruct (split_not_nil c (String a s))|].
      exists h. split; [left|].
      rewrite contains_unfold, (startswith_first_line c m _ h t Hc Hs E).
      reflexivity.
    + destruct (IH Hm) as (l & Hl & Hml).
      rewrite split_cons. destruct (decide (a = c)).
      * exists l. split; [now right | exact Hml].
      * destruct (split c s) as [|h t] eqn:E; [now destruct (split_not_nil c s)|].
        apply elem_of_cons in Hl as [->|Hl].
        -- exists (String a h). split; [left | now apply contains_cons].
        -- exists l. split; [now right | exact Hml].
Qed.

End LineFacts.

(** ** Markers, commands and the footer *)

Lemma length_app_s (a b : string) :
  String.length (a +:+ b) = String.length a + String.length b.
Proof. induction a as [|x a IH]; simpl; [reflexivity | now rewrite IH]. Qed.

Lemma has_char_app (c : ascii) (a b : string) :
  Text.has_char c (a +:+ b) = Text.has_char c a || Text.has_char c b.
Proof.
  induction a as [|x a IH]; [reflexivity|].
  simpl. destruct (decide (x = c)); [reflexivity | exact IH].
Qed.

Lemma marker_no_newline (version : string) :
  Text.has_char Text.newline version = false →
  Text.has_char Text.newline ("## [" +:+ version +:+ "]") = false.
Proof.
  intros H. change ("## [" +:+ version +:+ "]")
    with (String "#" (String "#" (String " " (String "[" (version +:+ "]"))))).
  cbn [Text.has_char].
  repeat (destruct (decide _); [discriminate|]).
  rewrite has_char_app, H. reflexivity.
Qed.

Lemma pretty_N_go_head (x : N) (s : string) :
  starts_unindented s → starts_unindented (pretty_N_go x s).
Proof.
  revert s. induction (N.lt_wf_0 x) as [x _ IH]; intros s Hs.
  destruct (decide (x = 0)%N) as [->|Hx]; [exact Hs|].
  rewrite pretty_N_go_step by lia. apply IH.
  - apply N.div_lt; lia.
  - eexists _, _. split; [reflexivity|].
    unfold pretty_N_char. repeat case_match; discriminate.
Qed.

(** A printed count starts with a digit. *)
Lemma pretty_nat_head (n : nat) : starts_unindented (pretty n).
Proof.
  unfold pretty, pretty_nat, pretty, pretty_N.
  case_decide as E; [eexists _, _; split; [reflexivity | discriminate]|].
  rewrite pretty_N_go_step by lia. apply pretty_N_go_head.
  eexists _, _. split; [reflexivity|].
  unfold pretty_N_char. repeat case_match; discriminate.
Qed.


Lemma footer_no_check_line (p f : nat) :
  filter (λ s, is_check_line s = true) (footer p f) = [].
Proof.
  unfold footer. rewrite filter_cons.
  case_decide as E1; [discriminate E1|].
  rewrite filter_cons. case_decide as E2; [|reflexivity].
  exfalso. case_bool_decide; [discriminate E2|].
  destruct (pretty_nat_head f) as (a & r & Ef & Ha). rewrite Ef in E2.
  unfold is_check_line in E2. simpl in E2.
  destruct (decide (" "%char = a)); [congruence | discriminate].
Qed.


(** * The claims *)

(** C1.  In every run that gets past the argument check and in which all
    seven checks complete (the process ends through [sys.exit], not
    through an uncaught exception), the exit status is 0 exactly when the
    final failed count is 0, and it is 1 otherwise. *)
Theorem exit_status_iff_no_failures w prog version status st :
  main w prog [version] = (Exited status, st) →
  (status = 0%Z ↔ failed st = 0) ∧ (failed st ≠ 0 → status = 1%Z).
Proof.
  intros Hmain.
  destruct (adapters w version (started version)) as [[e|[]] st7] eqn:H.
  - rewrite (main_raises w prog version e st7 H) in Hmain. discriminate.
  - rewrite (main_returns w prog version st7 H) in Hmain.
    injection Hmain as <- <-. cbn [failed].
    case_bool_decide; split; intros; try split; intros; try lia; try reflexivity;
      try discriminate.
Qed.

Lemma exit_status_iff_no_failures_witness :
  let st := snd (main w_release "validate-release.py" ["1.2.0"]) in
  (0%Z = 0%Z ↔ failed st = 0) ∧ (failed st ≠ 0 → 0%Z = 1%Z).
Proof.
  apply (exit_status_iff_no_failures w_release "validate-release.py" "1.2.0").
  vm_compute. reflexivity.
Defined.


(** A build number that is an integer is counted as passed before the
    formatting of its line raises, and the handler then counts two
    failures: eleven tallied, ten verdict lines printed. *)
Lemma integer_build_number_tallies_eleven :
  let st := snd (main w_int_build "validate-release.py" ["1.2.0"]) in
  passed st = 2 ∧ failed st = 9
  ∧ length (filter (λ s, is_check_line s = true) (stdout st)) = 10.
Proof. vm_compute. repeat split; reflexivity. Qed.








(** C5, as the spec puts it, fails for a version with a line break in
    it: the search runs over the whole text, so a heading whose bracket is
    closed on the next line is found although no line has the marker, the
    version and the brackets. *)
Lemma heading_found_across_lines :
  let version := "1" +:+ nl +:+ "2" in
  let content := "## [1" +:+ nl +:+ "2]" in
  let marker := "## [" +:+ version +:+ "]" in
  read_text w_broken_heading (CHANGELOG w_broken_heading) = inr content
  ∧ check_changelog w_broken_heading version initial
    = (inr (), commit initial [Result "CHANGELOG.md entry found" true ""]
                              [EvReadText "/repo/CHANGELOG.md"])
  ∧ ¬ (∃ l, l ∈ Text.split Text.newline content
            ∧ ∃ pre post, l = pre +:+ marker +:+ post).
Proof.
  split; [reflexivity|]. split; [reflexivity|].
  intros (l & Hl & Hc). apply contains_spec in Hc.
  vm_compute in Hl.
  apply elem_of_cons in Hl as [->|Hl]; [vm_compute in Hc; discriminate|].
  apply elem_of_cons in Hl as [->|Hl]; [vm_compute in Hc; discriminate|].
  now apply elem_of_nil in Hl.
Qed.

(** C5, amended.  Once the changelog is read, the pattern always
    compiles, and the check passes exactly when the text has, in one
    piece, the heading marker followed by the version, as it is, in
    brackets; for a version without a line break that is the same as some
    line of the text having it.  Version 1.2.0 is found in a text with its
    heading and not in one that only has the heading of 1.2.1; in a
    version such as 1.2+0 or 1.2.0 the plus sign and the dots stand for
    themselves. *)
Theorem changelog_entry_is_literal w version content st :
  read_text w (CHANGELOG w) = inr content →
  let marker := "## [" +:+ version +:+ "]" in
  let found := Text.contains marker content in
  Re.search (changelog_pattern version) content = Some found
  ∧ check_changelog w version st
    = (inr (), commit st [Result "CHANGELOG.md entry found" found ""]
                         [EvReadText (CHANGELOG w)])
  ∧ (found = true ↔ ∃ pre post, content = pre +:+ marker +:+ post)
  ∧ (Text.has_char Text.newline version = false →
     (found = true ↔
      ∃ l, l ∈ Text.split Text.newline content
           ∧ ∃ pre post, l = pre +:+ marker +:+ post))
  ∧ Re.search (changelog_pattern "1.2.0")
              ("# Changelog" +:+ nl +:+ "## [1.2.0] - 2025-01-01" +:+ nl) = Some true
  ∧ Re.search (changelog_pattern "1.2.0")
              ("# Changelog" +:+ nl +:+ "## [1.2.1] - 2025-01-01" +:+ nl) = Some false
  ∧ Re.search (changelog_pattern "1.2.0") "## [1x2y0]" = Some false
  ∧ Re.search (changelog_pattern "1.2+0") "## [1.2+0]" = Some true
  ∧ Re.search (changelog_pattern "1.2+0") "## [1.22220]" = Some false.
Proof.
  intros Hread marker found.
  split; [apply search_changelog_pattern|].
  split; [exact (check_changelog_read w version content st Hread)|].
  split; [apply contains_spec|].
  split; [|repeat split; reflexivity].
  intros Hnl. split.
  - intros Hf.
    destruct (contains_in_line Text.newline marker content
                (marker_no_newline version Hnl) Hf) as (l & Hl & Hml).
    exists l. split; [exact Hl | now apply contains_spec].
  - intros (l & Hl & Hml). apply contains_spec in Hml.
    exact (contains_of_line Text.newline marker content l Hl Hml).
Qed.

Lemma changelog_entry_is_literal_witness :
  let content := "# Changelog" +:+ nl +:+ "## [1.2.0] - 2025-01-01" +:+ nl in
  let marker := "## [" +:+ "1.2.0" +:+ "]" in
  let found := Text.contains marker content in
  read_text w_release (CHANGELOG w_release) = inr content
  ∧ Text.has_char Text.newline "1.2.0" = false
  ∧ Re.search (changelog_pattern "1.2.0") content = Some found
  ∧ check_changelog w_release "1.2.0" initial
    = (inr (), commit initial [Result "CHANGELOG.md entry found" found ""]
                              [EvReadText (CHANGELOG w_release)])
  ∧ (found = true ↔ ∃ pre post, content = pre +:+ marker +:+ post)
  ∧ (found = true ↔
     ∃ l, l ∈ Text.split Text.newline content
          ∧ ∃ pre post, l = pre +:+ marker +:+ post).
Proof.
  intros content marker found.
  assert (Hread : read_text w_release (CHANGELOG w_release) = inr content)
    by reflexivity.
  assert (Hnl : Text.has_char Text.newline "1.2.0" = false) by reflexivity.
  destruct (changelog_entry_is_literal w_release "1.2.0" content initial Hread)
    as (H1 & H2 & H3 & H4 & _).
  split; [exact Hread|]. split; [exact Hnl|]. split; [exact H1|].
  split; [exact H2|]. split; [exact H3 | exact (H4 Hnl)].
Defined.

(** C6, as the spec puts it, fails: the output is stripped before it is
    split.  A listing that has the tag behind a blank passes, although the
    tag is not one of the lines of the output as the command wrote it. *)
Lemma tag_found_after_stripping :
  let out := " v1.2.0" +:+ nl in
  shell w_padded_tags (git_tag_cmd "v1.2.0") 1 = inr (Completed 0 out "")
  ∧ check_git_tag w_padded_tags "1.2.0" initial
    = (inr (), commit initial [Result "Git tag exists" true "v1.2.0"]
                              [EvShell "git tag -l v1.2.0"; EvShell "git tag -l v1.2.0"])
  ∧ ¬ ("v1.2.0" ∈ Text.split Text.newline out).
Proof.
  split; [reflexivity|]. split; [reflexivity|].
  apply (bool_decide_eq_false_1 _). vm_compute. reflexivity.
Qed.

(** C6, amended.  Once both tag listings return, the tag check passes
    exactly when the tag, the version with a v in front, is one of the
    lines of the output that [run] hands back: the standard output of the
    second listing, stripped of the whitespace at its two ends, split at
    line breaks.  A listing of v1.2.0 and v1.2.0-beta passes for version
    1.2.0, also with a no-break space behind the tag; a listing of
    v1.2.0-beta alone fails, although the tag is a substring of it. *)
Theorem git_tag_exact_line w version c1 c2 st :
  shell w (git_tag_cmd ("v" +:+ version)) (length (trace st)) = inr c1 →
  shell w (git_tag_cmd ("v" +:+ version)) (S (length (trace st))) = inr c2 →
  let tag := "v" +:+ version in
  let found := Text.mem tag (Text.split Text.newline (Text.strip (proc_stdout c2))) in
  check_git_tag w version st
  = (inr (), commit st [Result "Git tag exists" found tag]
                       [EvShell (git_tag_cmd tag); EvShell (git_tag_cmd tag)])
  ∧ (found = true ↔ tag ∈ Text.split Text.newline (Text.strip (proc_stdout c2)))
  ∧ Text.mem "v1.2.0"
      (Text.split Text.newline
         (Text.strip ("v1.2.0" +:+ nl +:+ "v1.2.0-beta" +:+ nl))) = true
  ∧ Text.mem "v1.2.0"
      (Text.split Text.newline (Text.strip ("v1.2.0" +:+ nbsp +:+ nl))) = true
  ∧ Text.mem "v1.2.0"
      (Text.split Text.newline (Text.strip ("v1.2.0-beta" +:+ nl))) = false
  ∧ Text.contains "v1.2.0" (Text.strip ("v1.2.0-beta" +:+ nl)) = true.
Proof.
  intros H1 H2 tag found.
  split; [exact (check_git_tag_returns w version c1 c2 st H1 H2)|].
  split; [apply mem_spec|].
  repeat split; reflexivity.
Qed.

Lemma git_tag_exact_line_witness :
  let c := Completed 0 ("v1.2.0" +:+ nl +:+ "v1.2.0-beta" +:+ nl) "" in
  let tag := "v" +:+ "1.2.0" in
  let found := Text.mem tag (Text.split Text.newline (Text.strip (proc_stdout c))) in
  shell w_release (git_tag_cmd tag) (length (trace initial)) = inr c
  ∧ shell w_release (git_tag_cmd tag) (S (length (trace initial))) = inr c
  ∧ check_git_tag w_release "1.2.0" initial
    = (inr (), commit initial [Result "Git tag exists" found tag]
                              [EvShell (git_tag_cmd tag); EvShell (git_tag_cmd tag)])
  ∧ (found = true ↔ tag ∈ Text.split Text.newline (Text.strip (proc_stdout c))).
Proof.
  intros c tag found.
  assert (H1 : shell w_release (git_tag_cmd tag) (length (trace initial)) = inr c)
    by reflexivity.
  assert (H2 : shell w_release (git_tag_cmd tag) (S (length (trace initial))) = inr c)
    by reflexivity.
  destruct (git_tag_exact_line w_release "1.2.0" c c initial H1 H2) as (Ha & Hb & _).
  split; [exact H1|]. split; [exact H2|]. split; [exact Ha | exact Hb].
Defined.

(** C7.  When the release-metadata call returns a status other than 0,
    the release-host check tallies and prints two failed verdicts, the
    second with the detail [release not found], and the only command it
    ran is the release-metadata call: the asset listing is not invoked. *)
Theorem release_missing_fails_both w version c st :
  shell w (release_view_cmd ("v" +:+ version)) (length (trace st)) = inr c →
  returncode c ≠ 0%Z →
  ∃ st',
    check_github_release w version st = (inr (), st')
    ∧ passed st' = passed st ∧ failed st' = failed st + 2
    ∧ stdout st' = stdout st
        ++ [line (Result "GitHub release exists" false ("v" +:+ version));
            line (Result "Release asset ContainerBar.zip uploaded" false
                         "release not found")]
    ∧ trace st' = trace st ++ [EvShell (release_view_cmd ("v" +:+ version))]
    ∧ occurrences (EvShell (release_assets_cmd ("v" +:+ version))) st'
      = occurrences (EvShell (release_assets_cmd ("v" +:+ version))) st.
Proof.
  intros H Hrc. eexists. split.
  - exact (check_github_release_missing w version c st H Hrc).
  - unfold commit, occurrences; cbn [passed failed stdout trace].
    repeat split; try (vm_compute count_passed; lia); try (vm_compute count_failed; lia).
    rewrite filter_app, length_app, filter_cons, filter_nil.
    case_decide as E; [|simpl; lia].
    injection E as E. apply (f_equal String.length) in E.
    unfold release_view_cmd, release_assets_cmd in E.
    rewrite !length_app_s in E. simpl in E. lia.
Qed.

Lemma release_missing_fails_both_witness :
  ∃ st',
    check_github_release w_void "1.2.0" initial = (inr (), st')
    ∧ passed st' = passed initial ∧ failed st' = failed initial + 2
    ∧ stdout st' = stdout initial
        ++ [line (Result "GitHub release exists" false ("v" +:+ "1.2.0"));
            line (Result "Release asset ContainerBar.zip uploaded" false
                         "release not found")]
    ∧ trace st' = trace initial ++ [EvShell (release_view_cmd ("v" +:+ "1.2.0"))]
    ∧ occurrences (EvShell (release_assets_cmd ("v" +:+ "1.2.0"))) st'
      = occurrences (EvShell (release_assets_cmd ("v" +:+ "1.2.0"))) initial.
Proof.
  apply (release_missing_fails_both w_void "1.2.0" (Completed 1 "" "") initial).
  - reflexivity.
  - discriminate.
Defined.




(** Whatever the second listing answers, the tag check has by then run
    the same listing twice. *)
Lemma check_git_tag_lists_twice w version c1 st :
  shell w (git_tag_cmd ("v" +:+ version)) (length (trace st)) = inr c1 →
  trace (snd (check_git_tag w version st))
  = trace st ++ [EvShell (git_tag_cmd ("v" +:+ version));
                 EvShell (git_tag_cmd ("v" +:+ version))].
Proof.
  intros H1.
  destruct (shell w (git_tag_cmd ("v" +:+ version)) (S (length (trace st))))
    as [e|c2] eqn:H2.
  - now rewrite (check_git_tag_second_raises w version c1 e st H1 H2).
  - now rewrite (check_git_tag_returns w version c1 c2 st H1 H2).
Qed.

(** C9 does not hold of the script.  In a run against a release in good
    order the tag listing is invoked twice with the same command, and the
    signing assessment is invoked twice, once through the shell and once
    on an argument vector; every other source is consulted once. *)
Theorem tag_list_and_assessment_run_twice :
  let st := snd (main w_release "validate-release.py" ["1.2.0"]) in
  trace st
  = [EvLoadPlist "/repo/Distribution/Info.plist";
     EvReadText "/repo/CHANGELOG.md";
     EvShell "git tag -l v1.2.0";
     EvShell "git tag -l v1.2.0";
     EvReadText "/home/op/Desktop/homebrew-tap/Casks/containerbar.rb";
     EvShell "gh release view v1.2.0 --repo michaeltookes/ContainerBar";
     EvShell "gh release view v1.2.0 --repo michaeltookes/ContainerBar --json assets -q '.assets[].name'";
     EvUrlopen "https://michaeltookes.github.io/ContainerBar/appcast.xml";
     EvIsDir "/repo/dist/ContainerBar.app";
     EvShell (spctl_cmd w_release);
     EvExec ["spctl"; "--assess"; "--verbose=2"; "/repo/dist/ContainerBar.app"]]
  ∧ occurrences (EvShell "git tag -l v1.2.0") st = 2
  ∧ spctl_cmd w_release
    = "spctl --assess --verbose=2 " +:+ dq +:+ "/repo/dist/ContainerBar.app" +:+ dq.
Proof. vm_compute. repeat split; reflexivity. Qed.

(** C10.  Once the feed is fetched and decoded, the feed check passes
    for the empty version, whatever the feed holds: the empty text is
    inside every text. *)
Theorem appcast_empty_version_passes w data st :
  fetch w APPCAST_URL = inr data →
  Text.contains "" data = true
  ∧ ∃ st',
      check_appcast w "" st = (inr (), st')
      ∧ passed st' = passed st + 1 ∧ failed st' = failed st
      ∧ stdout st' = stdout st ++ ["  [PASS] Appcast contains version: v" +:+ nl].
Proof.
  intros H. split; [apply contains_empty|].
  eexists. split.
  - rewrite (check_appcast_fetched w "" data st H), contains_empty. reflexivity.
  - unfold commit; cbn [passed failed stdout trace].
    repeat split; try (vm_compute count_passed; lia); try (vm_compute count_failed; lia).
Qed.

Lemma appcast_empty_version_passes_witness :
  Text.contains "" "<enclosure sparkle:shortVersionString='1.2.0'/>" = true
  ∧ ∃ st',
      check_appcast w_release "" initial = (inr (), st')
      ∧ passed st' = passed initial + 1 ∧ failed st' = failed initial
      ∧ stdout st' = stdout initial ++ ["  [PASS] Appcast contains version: v" +:+ nl].
Proof.
  apply (appcast_empty_version_passes w_release _ initial). reflexivity.
Defined.

(** * Further properties *)



(** ** Bundle metadata *)

Lemma check_not_text_exn label cond d st :
  truthy d = true → is_text d = false →
  check label cond d st
  = (inl (concat_error d),
     State (passed st + (if cond then 1 else 0))
           (failed st + (if cond then 0 else 1)) (stdout st) (trace st)).
Proof.
  intros Ht Hn. destruct st as [p f o t].
  unfold check, detail_suffix, bind, incr_passed, incr_failed, raise, concat_error.
  rewrite Ht.
  destruct d; try discriminate; destruct cond; simpl;
    rewrite ?Nat.add_0_r, ?Nat.add_1_r; reflexivity.
Qed.





(** ** Package manifest *)

Section CaskFacts.
Import Text Re.














End CaskFacts.

Section CaskSearch.
Import Text Re.








End CaskSearch.








(** ** Release host *)

(** X6.  When the release-metadata call returns status 0 and the asset
    listing returns, the release-host check prints a passed release
    verdict and an asset verdict without detail.  The asset verdict
    passes exactly when the stripped output of the listing has the file
    name somewhere inside it; the status of the listing plays no part. *)
Theorem release_found_checks_asset_name w version c c2 st :
  shell w (release_view_cmd ("v" +:+ version)) (length (trace st)) = inr c →
  returncode c = 0%Z →
  shell w (release_assets_cmd ("v" +:+ version)) (S (length (trace st))) = inr c2 →
  ∃ ok,
    check_github_release w version st
    = (inr (), commit st
         [Result "GitHub release exists" true ("v" +:+ version);
          Result "Release asset ContainerBar.zip uploaded" ok ""]
         [EvShell (release_view_cmd ("v" +:+ version));
          EvShell (release_assets_cmd ("v" +:+ version))])
    ∧ (ok = true ↔
       ∃ pre post, Text.strip (proc_stdout c2) = pre +:+ "ContainerBar.zip" +:+ post).
Proof.
  intros H Hrc H2. eexists. split.
  - exact (check_github_release_found w version c c2 st H Hrc H2).
  - apply contains_spec.
Qed.

Lemma release_found_checks_asset_name_witness :
  ∃ ok,
    check_github_release w_release "1.2.0" initial
    = (inr (), commit initial
         [Result "GitHub release exists" true ("v" +:+ "1.2.0");
          Result "Release asset ContainerBar.zip uploaded" ok ""]
         [EvShell (release_view_cmd ("v" +:+ "1.2.0"));
          EvShell (release_assets_cmd ("v" +:+ "1.2.0"))])
    ∧ (ok = true ↔
       ∃ pre post, Text.strip ("ContainerBar.zip" +:+ nl)
                   = pre +:+ "ContainerBar.zip" +:+ post).
Proof.
  apply (release_found_checks_asset_name w_release "1.2.0"
           (Completed 0 ("ContainerBar.zip" +:+ nl) "")
           (Completed 0 ("ContainerBar.zip" +:+ nl) "") initial); reflexivity.
Defined.

(** ** Update feed *)

Lemma contains_trans (a b c : string) :
  Text.contains a b = true → Text.contains b c = true → Text.contains a c = true.
Proof.
  rewrite !contains_spec.
  intros (p1 & q1 & ->) (p2 & q2 & ->).
  exists (p2 +:+ p1), (q1 +:+ q2). now rewrite !app_assoc_s.
Qed.

(** X7.  Once the feed is fetched, the feed check passes exactly when the
    version occurs somewhere in the body, and so a feed that passes for a
    version passes for every text contained in that version: a feed that
    announces 1.2.10 passes for 1.2.1. *)
Theorem appcast_passes_for_contained_versions w version shorter data st :
  fetch w APPCAST_URL = inr data →
  Text.contains shorter version = true →
  ∃ ok ok',
    check_appcast w version st
    = (inr (), commit st [Result "Appcast contains version" ok ("v" +:+ version)]
                         [EvUrlopen APPCAST_URL])
    ∧ check_appcast w shorter st
      = (inr (), commit st [Result "Appcast contains version" ok' ("v" +:+ shorter)]
                           [EvUrlopen APPCAST_URL])
    ∧ (ok = true ↔ ∃ pre post, data = pre +:+ version +:+ post)
    ∧ (ok = true → ok' = true).
Proof.
  intros H Hs. eexists _, _.
  split; [exact (check_appcast_fetched w version data st H)|].
  split; [exact (check_appcast_fetched w shorter data st H)|].
  split; [apply contains_spec|].
  intros Hok. exact (contains_trans shorter version data Hs Hok).
Qed.

Lemma appcast_passes_for_contained_versions_witness :
  ∃ ok ok',
    check_appcast w_release "1.2.0" initial
    = (inr (), commit initial [Result "Appcast contains version" ok ("v" +:+ "1.2.0")]
                              [EvUrlopen APPCAST_URL])
    ∧ check_appcast w_release "2.0" initial
      = (inr (), commit initial [Result "Appcast contains version" ok' ("v" +:+ "2.0")]
                                [EvUrlopen APPCAST_URL])
    ∧ (ok = true ↔
       ∃ pre post, "<enclosure sparkle:shortVersionString='1.2.0'/>"
                   = pre +:+ "1.2.0" +:+ post)
    ∧ (ok = true → ok' = true).
Proof.
  apply (appcast_passes_for_contained_versions w_release "1.2.0" "2.0" _ initial);
    reflexivity.
Defined.

(** ** Code signing *)

Section LowerFacts.
Import Text.



End LowerFacts.






(** ** The tally *)


Section KeepFacts.
Context (w : world) (version : string).

Lemma verdict_lines_app (l1 l2 : list string) :
  verdict_lines (l1 ++ l2) = verdict_lines l1 + verdict_lines l2.
Proof. unfold verdict_lines. now rewrite filter_app, length_app. Qed.

Lemma advances_refl st : advances w version st st.
Proof.
  repeat split; try lia.
  - exists []. split; [now rewrite app_nil_r | unfold verdict_lines; simpl; lia].
  - exists []. split; [now rewrite app_nil_r | constructor].
Qed.

Lemma advances_trans st1 st2 st3 :
  advances w version st1 st2 → advances w version st2 st3 →
  advances w version st1 st3.
Proof.
  intros (Hp1 & Hf1 & (l1 & Ho1 & Hv1) & (e1 & Ht1 & Ha1))
         (Hp2 & Hf2 & (l2 & Ho2 & Hv2) & (e2 & Ht2 & Ha2)).
  repeat split; try lia.
  - exists (l1 ++ l2). split.
    + now rewrite Ho2, Ho1, app_assoc.
    + rewrite verdict_lines_app. lia.
  - exists (e1 ++ e2). split.
    + now rewrite Ht2, Ht1, app_assoc.
    + apply Forall_app. now split.
Qed.

Lemma keeps_ret {A} (x : A) : keeps w version (ret x).
Proof. intros st r st' [= <- <-]. apply advances_refl. Qed.

Lemma keeps_raise {A} (e : exn) : keeps w version (@raise A e).
Proof. intros st r st' [= <- <-]. apply advances_refl. Qed.

Lemma keeps_bind {A B} (m : M A) (k : A → M B) :
  keeps w version m → (∀ x, keeps w version (k x)) → keeps w version (bind m k).
Proof.
  intros Hm Hk st r st' H. unfold bind in H.
  destruct (m st) as [[e|x] st1] eqn:E.
  - injection H as <- <-. exact (Hm _ _ _ E).
  - exact (advances_trans _ _ _ (Hm _ _ _ E) (Hk x _ _ _ H)).
Qed.

Lemma keeps_try {A} (m : M A) (h : exn → M A) :
  keeps w version m → (∀ e, keeps w version (h e)) →
  keeps w version (try_except m h).
Proof.
  intros Hm Hh st r st' H. unfold try_except in H.
  destruct (m st) as [[e|x] st1] eqn:E.
  - exact (advances_trans _ _ _ (Hm _ _ _ E) (Hh e _ _ _ H)).
  - injection H as <- <-. exact (Hm _ _ _ E).
Qed.

Lemma advances_commit st (r : CheckResult) :
  advances w version st (commit st [r] []).
Proof.
  unfold advances, commit; cbn [passed failed stdout trace]. repeat split; try lia.
  - eexists. split; [reflexivity|].
    pose proof (count_total [r]) as Ht. simpl length in Ht.
    unfold verdict_lines. rewrite filter_check_lines. simpl. lia.
  - exists []. split; [reflexivity | constructor].
Qed.

Lemma keeps_check label cond d : keeps w version (check label cond d).
Proof.
  intros st r st' H.
  destruct (truthy d) eqn:Ht.
  - destruct (is_text d) eqn:Hx.
    + destruct d as [t| | |]; try discriminate.
      rewrite check_text in H. injection H as <- <-. apply advances_commit.
    + rewrite (check_not_text_exn label cond d st Ht Hx) in H.
      injection H as <- <-. unfold advances; cbn [passed failed stdout trace].
      repeat split; try lia.
      * exists []. split; [now rewrite app_nil_r|]. destruct cond; unfold verdict_lines; simpl; lia.
      * exists []. split; [now rewrite app_nil_r | constructor].
  - rewrite (check_falsy label cond d st Ht) in H.
    injection H as <- <-. apply advances_commit.
Qed.

Lemma keeps_interact {A} (ev : event) (answer : nat → exn + A) :
  ev ∈ allowed w version → keeps w version (interact ev answer).
Proof.
  intros Hev st r st' H. rewrite interact_eval in H. injection H as _ <-.
  unfold advances, commit; cbn [passed failed stdout trace]. repeat split; try lia.
  - exists []. split; [reflexivity | unfold verdict_lines; simpl; lia].
  - exists [ev]. split; [reflexivity|]. constructor; [exact Hev | constructor].
Qed.

Lemma keeps_run cmd : EvShell cmd ∈ allowed w version → keeps w version (run w cmd).
Proof.
  intros H. unfold run. apply keeps_bind; [now apply keeps_interact|].
  intros x. apply keeps_ret.
Qed.

Lemma keeps_print_plain (s e : string) :
  is_check_line (s +:+ e) = false → keeps w version (print_end s e).
Proof.
  intros Hs st r st' [= <- <-]. unfold advances; cbn [passed failed stdout trace].
  repeat split; try lia.
  - eexists. split; [reflexivity|].
    unfold verdict_lines. rewrite filter_cons, Hs.
    case_decide; [discriminate | unfold verdict_lines; simpl; lia].
  - exists []. split; [now rewrite app_nil_r | constructor].
Qed.

Ltac member := unfold allowed; rewrite !elem_of_cons; tauto.

Lemma keeps_check_info_plist : keeps w version (check_info_plist w version).
Proof.
  unfold check_info_plist. apply keeps_try.
  - apply keeps_bind; [apply keeps_interact; member|].
    intros plist. cbv zeta.
    apply keeps_bind; [apply keeps_check|]. intros _. apply keeps_check.
  - intros e. apply keeps_bind; [apply keeps_check|]. intros _. apply keeps_check.
Qed.

Lemma keeps_check_changelog : keeps w version (check_changelog w version).
Proof.
  unfold check_changelog. apply keeps_try.
  - apply keeps_bind; [apply keeps_interact; member|].
    intros content. cbv zeta. apply keeps_bind.
    + destruct (Re.search _ _); [apply keeps_ret | apply keeps_raise].
    + intros found. apply keeps_check.
  - intros e. apply keeps_check.
Qed.

Lemma keeps_check_git_tag : keeps w version (check_git_tag w version).
Proof.
  unfold check_git_tag. cbv zeta.
  apply keeps_bind; [apply keeps_run; member|]. intros r1.
  apply keeps_bind; [apply keeps_run; member|]. intros r2.
  apply keeps_check.
Qed.

Lemma keeps_check_homebrew_cask : keeps w version (check_homebrew_cask w version).
Proof.
  unfold check_homebrew_cask. apply keeps_try.
  - apply keeps_bind; [apply keeps_interact; member|].
    intros content. cbv zeta. apply keeps_check.
  - intros e. destruct (exn_cls e); apply keeps_check.
Qed.

Lemma keeps_check_github_release : keeps w version (check_github_release w version).
Proof.
  unfold check_github_release. cbv zeta.
  apply keeps_bind; [apply keeps_run; member|]. intros r.
  apply keeps_bind; [apply keeps_check|]. intros _.
  destruct (bool_decide (r.1 = 0%Z)); [|apply keeps_check].
  apply keeps_bind; [apply keeps_run; member|]. intros r2. apply keeps_check.
Qed.

Lemma keeps_check_appcast : keeps w version (check_appcast w version).
Proof.
  unfold check_appcast. apply keeps_try.
  - apply keeps_bind; [apply keeps_interact; member|].
    intros data. cbv zeta. apply keeps_check.
  - intros e. apply keeps_check.
Qed.

Lemma keeps_check_notarization : keeps w version (check_notarization w).
Proof.
  unfold check_notarization.
  apply keeps_bind; [apply keeps_interact; member|]. intros present.
  destruct (negb present); [apply keeps_check|].
  apply keeps_bind; [apply keeps_run; member|]. intros r.
  apply keeps_bind; [apply keeps_interact; member|]. intros result.
  cbv zeta. apply keeps_check.
Qed.

Lemma keeps_adapters : keeps w version (adapters w version).
Proof.
  unfold adapters.
  apply keeps_bind; [apply keeps_check_info_plist | intros _].
  apply keeps_bind; [apply keeps_check_changelog | intros _].
  apply keeps_bind; [apply keeps_check_git_tag | intros _].
  apply keeps_bind; [apply keeps_check_homebrew_cask | intros _].
  apply keeps_bind; [apply keeps_check_github_release | intros _].
  apply keeps_bind; [apply keeps_check_appcast | intros _].
  apply keeps_check_notarization.
Qed.

Lemma summary_eval st :
  summary st
  = (inr (), State (passed st) (failed st)
                   (stdout st ++ footer (passed st) (failed st)) (trace st)).
Proof.
  unfold summary, footer, bind, print, print_end. cbn [passed failed stdout trace].
  destruct (bool_decide (failed st = 0)); cbn [passed failed stdout trace];
    rewrite <- app_assoc; reflexivity.
Qed.

Lemma keeps_summary : keeps w version summary.
Proof.
  intros st r st' H. rewrite summary_eval in H. injection H as <- <-.
  unfold advances; cbn [passed failed stdout trace]. repeat split; try lia.
  - eexists. split; [reflexivity|].
    unfold verdict_lines. rewrite footer_no_check_line. simpl. lia.
  - exists []. split; [now rewrite app_nil_r | constructor].
Qed.

(** The state in which [main] ends has advanced from the initial one. *)
Lemma main_advances prog o st :
  main w prog [version] = (o, st) → advances w version initial st.
Proof.
  unfold main. intros H.
  assert (K : keeps w version
                (print (nl +:+ "  Release Validation: v" +:+ version) ;;;
                 print ("  " +:+ Text.repeat_char "=" 30) ;;;
                 adapters w version ;;; summary)).
  { apply keeps_bind; [apply keeps_print_plain; reflexivity | intros _].
    apply keeps_bind; [apply keeps_print_plain; reflexivity | intros _].
    apply keeps_bind; [apply keeps_adapters | intros _].
    apply keeps_summary. }
  destruct ((print (nl +:+ "  Release Validation: v" +:+ version) ;;;
             print ("  " +:+ Text.repeat_char "=" 30) ;;;
             adapters w version ;;; summary) initial) as [[e|u] st0] eqn:E;
    injection H as _ <-; exact (K _ _ _ E).
Qed.

End KeepFacts.

(** X11.  In every run with one argument, however it ends, no more
    verdicts were printed than checks were tallied: among the texts
    handed to [print], one text for each call, those that begin with a
    verdict mark are at most as many as the two counters add up to.  A
    verdict is printed only after its check was counted. *)
Theorem verdicts_never_exceed_tally w prog version :
  let st := snd (main w prog [version]) in
  (verdict_lines (stdout st) ≤ passed st + failed st)%nat.
Proof.
  destruct (main w prog [version]) as [o st] eqn:E. cbn [snd].
  destruct (main_advances w version prog o st E) as (_ & _ & (lines & Ho & Hv) & _).
  cbn [initial passed failed stdout] in Ho, Hv. rewrite Ho. simpl. lia.
Qed.

(** X12.  In every run with one argument, however it ends, the script
    touches nothing but its own sources: the property list, the changelog,
    the cask file, the feed address, the bundle directory, and the five
    commands (the tag listing, the two release queries and the two forms
    of the signing assessment) made from the version. *)
Theorem run_touches_only_its_sources w prog version :
  Forall (λ ev, ev ∈ allowed w version) (trace (snd (main w prog [version]))).
Proof.
  destruct (main w prog [version]) as [o st] eqn:E. cbn [snd].
  destruct (main_advances w version prog o st E) as (_ & _ & _ & (evs & Ht & Ha)).
  cbn [initial trace] in Ht. rewrite Ht. exact Ha.
Qed.

(** ** The exit status *)

(** X13.  The status the script hands to [sys.exit] is 0, 1 or 2 in every
    run that ends there, and it is 2 exactly when the number of arguments
    is not one. *)
Theorem exit_status_range w prog args status st :
  main w prog args = (Exited status, st) →
  (status = 0%Z ∨ status = 1%Z ∨ status = 2%Z)
  ∧ (status = 2%Z ↔ length args ≠ 1).
Proof.
  intros Hmain. destruct args as [|version [|v' args]].
  - rewrite (main_usage w prog []) in Hmain by (simpl; lia).
    injection Hmain as <- _. split; [tauto|].
    split; [intros _; simpl; lia | reflexivity].
  - destruct (adapters w version (started version)) as [[e|[]] st7] eqn:H.
    + rewrite (main_raises w prog version e st7 H) in Hmain. discriminate.
    + rewrite (main_returns w prog version st7 H) in Hmain.
      assert (E : status = if bool_decide (0 < failed st7) then 1%Z else 0%Z)
        by congruence.
      rewrite E. case_bool_decide; (split; [tauto|]);
        (split; [discriminate | intros Hn; now contradiction Hn]).
  - rewrite (main_usage w prog (version :: v' :: args)) in Hmain by (simpl; lia).
    injection Hmain as <- _. split; [tauto|].
    split; [intros _; simpl; lia | reflexivity].
Qed.

Lemma exit_status_range_witness :
  (1%Z = 0%Z ∨ 1%Z = 1%Z ∨ 1%Z = 2%Z)
  ∧ (1%Z = 2%Z ↔ length ["1.2.0"] ≠ 1).
Proof.
  apply (exit_status_range w_void "validate-release.py" ["1.2.0"] 1%Z
           (snd (main w_void "validate-release.py" ["1.2.0"]))).
  vm_compute. reflexivity.
Defined.

Section ZeroFacts.
Context (w : world).

Lemma check_outcome label cond d st :
  (∃ t, check label cond d st = (inr (), commit st [Result label cond t] []))
  ∨ check label cond d st
    = (inl (concat_error d),
       State (passed st + (if cond then 1 else 0))
             (failed st + (if cond then 0 else 1)) (stdout st) (trace st)).
Proof.
  destruct (truthy d) eqn:Ht.
  - destruct (is_text d) eqn:Hx.
    + destruct d; try discriminate. left. eexists. apply check_text.
    + right. exact (check_not_text_exn label cond d st Ht Hx).
  - left. eexists. now apply check_falsy.
Qed.

Lemma failed_commit st rs evs :
  failed (commit st rs evs) = failed st + count_failed rs.
Proof. reflexivity. Qed.

Lemma passed_commit st rs evs :
  passed (commit st rs evs) = passed st + count_passed rs.
Proof. reflexivity. Qed.

(** The bundle-metadata check either prints its two verdicts, or has
    counted at least two failures. *)
Lemma check_info_plist_shape version st :
  (∃ rs evs, map cr_label rs = ["Info.plist version"; "Info.plist build"]
             ∧ check_info_plist w version st = (inr (), commit st rs evs))
  ∨ (∃ st', check_info_plist w version st = (inr (), st')
            ∧ (failed st + 2 ≤ failed st')%nat).
Proof.
  destruct (load_plist w (INFO_PLIST w)) as [e|plist] eqn:Hload.
  - left. eexists _, _. split; [|exact (check_info_plist_error w version e st Hload)].
    reflexivity.
  - unfold check_info_plist, try_except, bind. rewrite interact_eval, Hload.
    set (v := default (PStr "") (plist !! "CFBundleShortVersionString")).
    set (b := default (PStr "") (plist !! "CFBundleVersion")).
    destruct (check_outcome "Info.plist version" (eq_str v version) v
                (commit st [] [EvLoadPlist (INFO_PLIST w)])) as [[t ->]| ->].
    + rewrite commit_commit.
      destruct (check_outcome "Info.plist build" (ne_str b "") b
                  (commit st ([] ++ [Result "Info.plist version" (eq_str v version) t])
                     ([EvLoadPlist (INFO_PLIST w)] ++ []))) as [[t' ->]| ->].
      * left. rewrite commit_commit. eexists _, _. split; [|reflexivity]. reflexivity.
      * right. rewrite !check_text, commit_commit. eexists. split; [reflexivity|].
        rewrite failed_commit. cbn [failed]. rewrite failed_commit.
        vm_compute (count_failed (_ ++ _)). lia.
    + right. rewrite !check_text, commit_commit. eexists. split; [reflexivity|].
      rewrite failed_commit. cbn [failed]. rewrite failed_commit.
      vm_compute (count_failed (_ ++ _)). lia.
Qed.

(** The six checks after the first. *)
Lemma settles_rest version st :
  settles w (drop 2 LABELS)
    (check_changelog w version ;;;
     check_git_tag w version ;;;
     check_homebrew_cask w version ;;;
     check_github_release w version ;;;
     check_appcast w version ;;;
     check_notarization w) st.
Proof.
  change (drop 2 LABELS) with
    (["CHANGELOG.md entry found"]
     ++ ["Git tag exists"] ++ ["Homebrew cask version"]
     ++ ["GitHub release exists"; "Release asset ContainerBar.zip uploaded"]
     ++ ["Appcast contains version"] ++ ["App notarization valid"]).
  apply settles_seq; [apply settles_changelog | intros st2].
  apply settles_seq; [apply settles_git_tag | intros st3].
  apply settles_seq; [apply settles_homebrew_cask | intros st4].
  apply settles_seq; [apply settles_github_release | intros st5].
  apply settles_seq; [apply settles_appcast | intros st6].
  apply settles_notarization.
Qed.

Lemma count_failed_zero (rs : list CheckResult) :
  count_failed rs = 0 →
  Forall (λ r, cr_passed r = true) rs ∧ count_passed rs = length rs.
Proof.
  intros H. pose proof (count_total rs) as Ht. split; [|lia].
  clear Ht. induction rs as [|r rs IH]; [constructor|].
  unfold count_failed in *. rewrite filter_cons in H.
  destruct r as [l [] d]; cbn [cr_passed] in *.
  - case_decide; [discriminate|]. constructor; [reflexivity | exact (IH H)].
  - case_decide; [simpl in H; lia | congruence].
Qed.

(** A run without a failure printed all nine verdicts. *)
Lemma adapters_without_failure version st7 :
  adapters w version (started version) = (inr (), st7) →
  failed st7 = 0 →
  ∃ rs evs, map cr_label rs = LABELS ∧ st7 = commit (started version) rs evs.
Proof.
  intros H Hf. unfold adapters in H.
  destruct (check_info_plist_shape version (started version))
    as [(rs1 & evs1 & Hl1 & H1)|(st1 & H1 & Hge)];
    rewrite (bind_ok _ _ _ _ _ H1) in H.
  - destruct (settles_rest version (commit (started version) rs1 evs1))
      as [(rs2 & evs2 & Hl2 & H2)|(e & rs2 & evs2 & H2 & _)];
      rewrite H2 in H; [|discriminate].
    injection H as <-. exists (rs1 ++ rs2), (evs1 ++ evs2).
    split; [|apply commit_commit].
    rewrite map_app, Hl1, Hl2. reflexivity.
  - destruct (settles_rest version st1)
      as [(rs2 & evs2 & Hl2 & H2)|(e & rs2 & evs2 & H2 & _)];
      rewrite H2 in H; [|discriminate].
    injection H as <-. rewrite failed_commit in Hf. cbn [started failed] in Hge. lia.
Qed.

End ZeroFacts.

(** X15.  Exit status 0 means that all nine checks passed, in every
    environment and whatever the property list holds: the run then
    counted nine passes and no failure, and standard output is the
    header, nine passed verdict lines under the nine labels in order, and
    the footer. *)
Theorem exit_zero_means_nine_passed w prog version st :
  main w prog [version] = (Exited 0, st) →
  passed st = 9 ∧ failed st = 0
  ∧ ∃ rs, map cr_label rs = LABELS
          ∧ Forall (λ r, cr_passed r = true) rs
          ∧ stdout st = header version ++ map line rs ++ footer 9 0.
Proof.
  intros Hmain.
  destruct (adapters w version (started version)) as [[e|[]] st7] eqn:H.
  { rewrite (main_raises w prog version e st7 H) in Hmain. discriminate. }
  rewrite (main_returns w prog version st7 H) in Hmain.
  assert (Hf : failed st7 = 0).
  { case_bool_decide as Hb; [|lia]. discriminate Hmain. }
  destruct (adapters_without_failure w version st7 H Hf) as (rs & evs & Hl & E7).
  assert (Hf' : count_failed rs = 0) by (rewrite E7 in Hf; exact Hf).
  destruct (count_failed_zero rs Hf') as [Hall Hp].
  assert (Hlen : length rs = 9) by (rewrite <- (length_map cr_label), Hl; reflexivity).
  assert (Hp7 : passed st7 = 9) by (rewrite E7, passed_commit, Hp, Hlen; reflexivity).
  assert (Hout : stdout st7 = header version ++ map line rs) by now rewrite E7.
  clear E7 H. injection Hmain as _ <-. cbn [passed failed stdout].
  rewrite Hp7, Hf, Hout.
  split; [reflexivity|]. split; [reflexivity|].
  exists rs. split; [exact Hl|]. split; [exact Hall|].
  rewrite <- app_assoc. reflexivity.
Qed.

Lemma exit_zero_means_nine_passed_witness :
  let st := snd (main w_release "validate-release.py" ["1.2.0"]) in
  passed st = 9 ∧ failed st = 0
  ∧ ∃ rs, map cr_label rs = LABELS
          ∧ Forall (λ r, cr_passed r = true) rs
          ∧ stdout st = header "1.2.0" ++ map line rs ++ footer 9 0.
Proof.
  apply (exit_zero_means_nine_passed w_release "validate-release.py" "1.2.0").
  vm_compute. reflexivity.
Defined.

(** ** The order of the interactions *)

Section OrderFacts.
Context (w : world) (version : string).

Lemma makes_commit (m : M unit) st rs evs :
  m st = (inr (), commit st rs evs) → makes evs m st.
Proof.
  intros H st' H'. assert (E : st' = commit st rs evs) by congruence.
  rewrite E. apply trace_commit.
Qed.

Lemma makes_raise (m : M unit) st e st1 evs :
  m st = (inl e, st1) → makes evs m st.
Proof. intros H st' H'. congruence. Qed.

Lemma makes_seq evs1 evs2 (m1 m2 : M unit) st :
  makes evs1 m1 st →
  (∀ st1, trace st1 = trace st ++ evs1 → makes evs2 m2 st1) →
  makes (evs1 ++ evs2) (m1 ;;; m2) st.
Proof.
  intros H1 H2 st' H. unfold bind in H.
  destruct (m1 st) as [[e|[]] st1] eqn:E; [discriminate|].
  pose proof (H1 st1 E) as T1.
  rewrite (H2 st1 T1 st' H), T1, app_assoc. reflexivity.
Qed.

Lemma makes_info_plist st :
  makes [EvLoadPlist (INFO_PLIST w)] (check_info_plist w version) st.
Proof.
  destruct (check_info_plist_any w version st) as (st1 & H & _ & T).
  intros st' H'. assert (E : st' = st1) by congruence. now rewrite E.
Qed.

Lemma makes_changelog st :
  makes [EvReadText (CHANGELOG w)] (check_changelog w version) st.
Proof.
  destruct (read_text w (CHANGELOG w)) as [e|content] eqn:H.
  - exact (makes_commit _ _ _ _ (check_changelog_error w version e st H)).
  - exact (makes_commit _ _ _ _ (check_changelog_read w version content st H)).
Qed.

Lemma makes_git_tag st :
  makes [EvShell (git_tag_cmd ("v" +:+ version)); EvShell (git_tag_cmd ("v" +:+ version))]
        (check_git_tag w version) st.
Proof.
  destruct (shell w (git_tag_cmd ("v" +:+ version)) (length (trace st)))
    as [e|c1] eqn:H1.
  { exact (makes_raise _ _ _ _ _ (check_git_tag_first_raises w version e st H1)). }
  destruct (shell w (git_tag_cmd ("v" +:+ version)) (S (length (trace st))))
    as [e|c2] eqn:H2.
  { exact (makes_raise _ _ _ _ _ (check_git_tag_second_raises w version c1 e st H1 H2)). }
  exact (makes_commit _ _ _ _ (check_git_tag_returns w version c1 c2 st H1 H2)).
Qed.

Lemma makes_homebrew_cask st :
  makes [EvReadText (HOMEBREW_CASK w)] (check_homebrew_cask w version) st.
Proof.
  destruct (check_homebrew_cask_returns w version st) as (ok & d & H).
  exact (makes_commit _ _ _ _ H).
Qed.

Lemma makes_github_release st :
  length (trace st) = 5 →
  makes (EvShell (release_view_cmd ("v" +:+ version))
         :: (if released w version
             then [EvShell (release_assets_cmd ("v" +:+ version))] else []))
        (check_github_release w version) st.
Proof.
  intros Hlen. unfold released. rewrite <- Hlen.
  destruct (shell w (release_view_cmd ("v" +:+ version)) (length (trace st)))
    as [e|c] eqn:H1.
  { exact (makes_raise _ _ _ _ _ (check_github_release_raises w version e st H1)). }
  destruct (decide (returncode c = 0%Z)) as [Hrc|Hrc].
  - rewrite (bool_decide_eq_true_2 _ Hrc).
    destruct (shell w (release_assets_cmd ("v" +:+ version)) (S (length (trace st))))
      as [e|c2] eqn:H2.
    + exact (makes_raise _ _ _ _ _
               (check_github_release_assets_raise w version c e st H1 Hrc H2)).
    + exact (makes_commit _ _ _ _
               (check_github_release_found w version c c2 st H1 Hrc H2)).
  - rewrite (bool_decide_eq_false_2 _ Hrc).
    exact (makes_commit _ _ _ _ (check_github_release_missing w version c st H1 Hrc)).
Qed.

Lemma makes_appcast st :
  makes [EvUrlopen APPCAST_URL] (check_appcast w version) st.
Proof.
  destruct (fetch w APPCAST_URL) as [e|data] eqn:H.
  - exact (makes_commit _ _ _ _ (check_appcast_error w version e st H)).
  - exact (makes_commit _ _ _ _ (check_appcast_fetched w version data st H)).
Qed.

Lemma makes_notarization st :
  makes (EvIsDir (APP_BUNDLE w)
         :: (if isdir w (APP_BUNDLE w)
             then [EvShell (spctl_cmd w); EvExec (spctl_argv w)] else []))
        (check_notarization w) st.
Proof.
  destruct (isdir w (APP_BUNDLE w)) eqn:H.
  - destruct (shell w (spctl_cmd w) (S (length (trace st)))) as [e|c1] eqn:H1.
    { exact (makes_raise _ _ _ _ _ (check_notarization_shell_raises w e st H H1)). }
    destruct (exec w (spctl_argv w) (S (S (length (trace st))))) as [e|c2] eqn:H2.
    { exact (makes_raise _ _ _ _ _ (check_notarization_exec_raises w c1 e st H H1 H2)). }
    destruct (check_notarization_present w c1 c2 st H H1 H2) as (ok & d & Hc).
    exact (makes_commit _ _ _ _ Hc).
  - exact (makes_commit _ _ _ _ (check_notarization_missing w st H)).
Qed.

Lemma makes_adapters :
  makes (interactions w version) (adapters w version) (started version).
Proof.
  unfold adapters.
  replace (interactions w version) with
    ([EvLoadPlist (INFO_PLIST w)] ++ [EvReadText (CHANGELOG w)]
     ++ [EvShell (git_tag_cmd ("v" +:+ version)); EvShell (git_tag_cmd ("v" +:+ version))]
     ++ [EvReadText (HOMEBREW_CASK w)]
     ++ (EvShell (release_view_cmd ("v" +:+ version))
         :: (if released w version
             then [EvShell (release_assets_cmd ("v" +:+ version))] else []))
     ++ [EvUrlopen APPCAST_URL]
     ++ (EvIsDir (APP_BUNDLE w)
         :: (if isdir w (APP_BUNDLE w)
             then [EvShell (spctl_cmd w); EvExec (spctl_argv w)] else [])))
    by (unfold interactions; destruct (released w version); reflexivity).
  apply makes_seq; [apply makes_info_plist | intros st1 T1].
  apply makes_seq; [apply makes_changelog | intros st2 T2].
  apply makes_seq; [apply makes_git_tag | intros st3 T3].
  apply makes_seq; [apply makes_homebrew_cask | intros st4 T4].
  apply makes_seq.
  { apply makes_github_release. rewrite T4, T3, T2, T1. reflexivity. }
  intros st5 T5.
  apply makes_seq; [apply makes_appcast | intros st6 T6].
  apply makes_notarization.
Qed.

End OrderFacts.

(** X16.  A run with one argument that ends through [sys.exit] has
    consulted its sources in one fixed order: the property list, the
    changelog, the tag listing twice, the cask file, the release
    metadata, the asset listing only if the release was found, the feed,
    the bundle directory and, only if the bundle is there, the signing
    assessment through the shell and then on an argument vector.  No
    outcome of a check changes the order or skips a later check. *)
Theorem interactions_in_fixed_order w prog version status st :
  main w prog [version] = (Exited status, st) →
  trace st = interactions w version.
Proof.
  intros Hmain.
  destruct (adapters w version (started version)) as [[e|[]] st7] eqn:H.
  { rewrite (main_raises w prog version e st7 H) in Hmain. discriminate. }
  rewrite (main_returns w prog version st7 H) in Hmain.
  pose proof (makes_adapters w version st7 H) as T.
  assert (E : trace st = trace st7) by (injection Hmain as _ <-; reflexivity).
  rewrite E, T. reflexivity.
Qed.

Lemma interactions_in_fixed_order_witness :
  trace (snd (main w_release "validate-release.py" ["1.2.0"]))
  = interactions w_release "1.2.0".
Proof.
  apply (interactions_in_fixed_order w_release "validate-release.py" "1.2.0" 0%Z).
  vm_compute. reflexivity.
Defined.

(** ** The summary *)

Lemma pretty_N_go_digit (x : N) (s : string) :
  (∃ a r, s = String a r ∧ a ≠ "R"%char) →
  ∃ a r, pretty_N_go x s = String a r ∧ a ≠ "R"%char.
Proof.
  revert s. induction (N.lt_wf_0 x) as [x _ IH]; intros s Hs.
  destruct (decide (x = 0)%N) as [->|Hx]; [exact Hs|].
  rewrite pretty_N_go_step by lia. apply IH.
  - apply N.div_lt; lia.
  - eexists _, _. split; [reflexivity|].
    unfold pretty_N_char. repeat case_match; discriminate.
Qed.

Lemma pretty_nat_not_R (n : nat) : ∃ a r, pretty n = String a r ∧ a ≠ "R"%char.
Proof.
  unfold pretty, pretty_nat, pretty, pretty_N.
  case_decide as E; [eexists _, _; split; [reflexivity | discriminate]|].
  rewrite pretty_N_go_step by lia. apply pretty_N_go_digit.
  eexists _, _. split; [reflexivity|].
  unfold pretty_N_char. repeat case_match; discriminate.
Qed.

(** X17.  In every run with one argument that ends through [sys.exit],
    the last two texts printed are the summary: the counts as
    passed/total with the total being the sum of the two counters, and
    then the phrase [Release is complete.] exactly when the status handed
    to [sys.exit] is 0. *)
Theorem summary_agrees_with_status w prog version status st :
  main w prog [version] = (Exited status, st) →
  ∃ body closing,
    stdout st
    = body ++ [nl +:+ "  " +:+ pretty (passed st) +:+ "/"
               +:+ pretty (passed st + failed st) +:+ " checks passed."; closing]
    ∧ (closing = (" Release is complete." +:+ nl) +:+ nl ↔ status = 0%Z).
Proof.
  intros Hmain.
  destruct (adapters w version (started version)) as [[e|[]] st7] eqn:H.
  { rewrite (main_raises w prog version e st7 H) in Hmain. discriminate. }
  rewrite (main_returns w prog version st7 H) in Hmain.
  injection Hmain as <- <-. cbn [passed failed stdout]. unfold footer.
  eexists (stdout st7), _. split.
  { rewrite app_nil_r_s. reflexivity. }
  case_bool_decide as Hf.
  - rewrite bool_decide_eq_false_2 by lia. split; reflexivity.
  - rewrite bool_decide_eq_true_2 by lia. split; [|discriminate].
    intros Heq. exfalso.
    destruct (pretty_nat_not_R (failed st7)) as (a & r & Ea & Ha).
    rewrite Ea in Heq. simpl in Heq. injection Heq as Heq _. congruence.
Qed.

Lemma summary_agrees_with_status_witness :
  let st := snd (main w_void "validate-release.py" ["1.2.0"]) in
  ∃ body closing,
    stdout st
    = body ++ [nl +:+ "  " +:+ pretty (passed st) +:+ "/"
               +:+ pretty (passed st + failed st) +:+ " checks passed."; closing]
    ∧ (closing = (" Release is complete." +:+ nl) +:+ nl ↔ 1%Z = 0%Z).
Proof.
  apply (summary_agrees_with_status w_void "validate-release.py" "1.2.0").
  vm_compute. reflexivity.
Defined.
